(** * YamlPatcher: the path-addressed document editor of
      [cosmo_tester/framework/util.py]

    A shallow embedding of the class [YamlPatcher] and a verification of
    its path language, its four mutating operations and its write-back
    on scope exit; and of [process_variables], with the template engine
    as a parameter.

    Conventions of the embedding.
    - A Python 2 [str] is a [string] (a list of 8-bit characters).
    - The loaded document is a tree of mappings, sequences and scalars
      ([value]); mappings have string keys and are [gmap string value],
      so two mappings with the same entries are equal whatever the order
      of insertion.  Scalars are [None], booleans, integers and strings.
    - The document is mutated in place.  An object of the document is
      named by the access path leading to it from the root ([loc]), and
      an in-place mutation of that object is [assign] at that path.
    - A method is a function from the document before the call to an
      [outcome] (value returned or exception raised) and the document
      after the call: what was mutated before an exception stays mutated.
*)

From Stdlib Require Import Ascii String.
From stdpp Require Import base option list strings gmap fin_maps.

Local Open Scope string_scope.
Local Open Scope list_scope.

(** ** Python string primitives used by the class *)

Module Py.

(** [s.startswith(p)] *)
Fixpoint startswith (p s : string) : bool :=
  match p, s with
  | EmptyString, _ => true
  | String a p', String b s' => if Ascii.eqb a b then startswith p' s' else false
  | String _ _, EmptyString => false
  end.

(** [sub in s] for two strings: [sub] occurs in [s]. *)
Fixpoint str_contains (sub s : string) : bool :=
  startswith sub s ||
  match s with
  | EmptyString => false
  | String _ s' => str_contains sub s'
  end.

(** [s.replace(old, new)] for a non-empty [old]: the occurrences of [old]
    are found from left to right and do not overlap.  [skip] counts the
    characters of the occurrence being replaced that are still to be
    dropped. *)
Fixpoint replace_from (old new : string) (skip : nat) (s : string) : string :=
  match s with
  | EmptyString => EmptyString
  | String c t =>
      match skip with
      | S k => replace_from old new k t
      | O =>
          if startswith old s
          then new +:+ replace_from old new (String.length old - 1) t
          else String c (replace_from old new 0 t)
      end
  end.

Definition replace (old new s : string) : string := replace_from old new 0 s.

(** [sep.join(parts)] *)
Fixpoint join (sep : string) (parts : list string) : string :=
  match parts with
  | [] => EmptyString
  | [p] => p
  | p :: rest => p +:+ sep +:+ join sep rest
  end.

(** [\d] of a byte-string pattern: the ten ASCII digits. *)
Definition is_digit (c : ascii) : bool :=
  let n := nat_of_ascii c in (48 <=? n)%nat && (n <=? 57)%nat.

(** [int(s)] for a string of ASCII digits. *)
Definition int_of_digits (s : string) : nat :=
  fold_left (fun acc c => 10 * acc + (nat_of_ascii c - 48))%nat
            (list_ascii_of_string s) 0%nat.

End Py.

(** ** The two regular expressions of the class *)

Module Re.

Definition newline : ascii := "010"%char.
Definition backslash : ascii := "\"%char.
Definition dot : ascii := "."%char.

(** *** [pattern = re.compile("(.+)\[(\d+)\]")], used with [pattern.match]

    [match] anchors the pattern at the start of the string only; what
    follows the closing bracket is not looked at.  [.] is any character
    but a newline.  [.+] is greedy: the engine first lets it run as far
    as it can and gives characters back one at a time until the rest of
    the pattern matches, so group 1 is the longest possible prefix. *)

(** [\d+] greedy: the longest run of digits, and what follows it. *)
Fixpoint span_digits (s : string) : string * string :=
  match s with
  | String c t =>
      if Py.is_digit c
      then let '(ds, rest) := span_digits t in (String c ds, rest)
      else (EmptyString, s)
  | EmptyString => (EmptyString, EmptyString)
  end.

(** [\[(\d+)\]] matched at the start of [s]: group 2.  Giving digits back
    cannot help, since the bracket would then face a digit. *)
Definition match_index (s : string) : option string :=
  match s with
  | String "[" t =>
      match span_digits t with
      | (String d ds, String "]" _) => Some (String d ds)
      | _ => None
      end
  | _ => None
  end.

(** [.*] followed by [\[(\d+)\]] at the start of [s], longest [.*]
    first: what [.*] took, and group 2. *)
Fixpoint match_rest (s : string) : option (string * string) :=
  match s with
  | EmptyString => None
  | String c t =>
      let here := (fun ds => (EmptyString, ds)) <$> match_index s in
      if Ascii.eqb c newline then here
      else match match_rest t with
           | Some (g, ds) => Some (String c g, ds)
           | None => here
           end
  end.

(** [pattern.match(s)]: [None], or the groups 1 and 2. *)
Definition pattern_match (s : string) : option (string * string) :=
  match s with
  | EmptyString => None
  | String c t =>
      if Ascii.eqb c newline then None
      else (fun '(g, ds) => (String c g, ds)) <$> match_rest t
  end.

(** *** [re.split('(?<![^\\\\]\\\\)\.', path)]

    The regular expression is [(?<![^\\]\\)\.]: a dot that is not
    preceded by the two characters "something that is not a backslash,
    then a backslash".  The look-behind reads the subject string itself;
    fewer than two characters before the dot cannot satisfy it. *)

(** The look-behind [(?<=[^\\]\\)] given the two preceding characters. *)
Definition lookbehind (p2 p1 : option ascii) : bool :=
  match p2, p1 with
  | Some a, Some b => negb (Ascii.eqb a backslash) && Ascii.eqb b backslash
  | _, _ => false
  end.

(** [p2] and [p1] are the two characters before [s] in the subject. *)
Fixpoint split_from (p2 p1 : option ascii) (s : string) : list string :=
  match s with
  | EmptyString => [EmptyString]
  | String c t =>
      let rest := split_from p1 (Some c) t in
      if Ascii.eqb c dot && negb (lookbehind p2 p1)
      then EmptyString :: rest
      else match rest with
           | seg :: more => String c seg :: more
           | [] => [String c EmptyString]
           end
  end.

Definition split_dots (path : string) : list string := split_from None None path.

End Re.

(** ** Documents *)

(** The documents considered: [None], [bool], [int] and [str] scalars,
    [list] and [dict] (with [str] keys).  [yaml.load] also builds
    [float], dates and mappings with other keys; documents that hold
    them are outside this model. *)
#[warnings="-register-all"]
Inductive value : Type :=
  | VNone
  | VBool (b : bool)
  | VInt (n : Z)
  | VStr (s : string)
  | VList (l : list value)
  | VDict (d : gmap string value).

(** The exceptions the class raises or lets through.  [RuntimeError] and
    [AssertionError] carry their message; [KeyError] is the one of a
    failed [dict] lookup and carries the key; [KeyErrorDelete] is the
    [KeyError] raised by [delete_property], whose message is formatted
    from the property name and the parent object. *)
Inductive exn : Type :=
  | RuntimeError (msg : string)
  | AssertionError (msg : string)
  | KeyError (key : string)
  | KeyErrorDelete (prop_name : string) (obj : value)
  | IndexError
  | TypeError
  | AttributeError.

Inductive outcome (A : Type) : Type :=
  | Return (a : A)
  | Raise (e : exn).
Arguments Return {A} a.
Arguments Raise {A} e.

(** *** Objects of the document

    The document is a tree, so an object inside it is named by the way
    that leads to it from the root. *)

Inductive step : Type :=
  | Key (k : string)
  | Idx (i : nat).

Definition loc : Type := list step.

(** The object at [r] under [root], if [r] leads somewhere. *)
Fixpoint deref (root : value) (r : loc) : option value :=
  match r with
  | [] => Some root
  | Key k :: r' =>
      match root with
      | VDict d => d !! k ≫= (fun child => deref child r')
      | _ => None
      end
  | Idx i :: r' =>
      match root with
      | VList l => l !! i ≫= (fun child => deref child r')
      | _ => None
      end
  end.

(** The document after the object at [r] has been mutated into [new]
    (the document itself when [r] leads nowhere). *)
Fixpoint assign (root : value) (r : loc) (new : value) : value :=
  match r with
  | [] => new
  | Key k :: r' =>
      match root with
      | VDict d =>
          match d !! k with
          | Some child => VDict (<[k := assign child r' new]> d)
          | None => root
          end
      | _ => root
      end
  | Idx i :: r' =>
      match root with
      | VList l =>
          match l !! i with
          | Some child => VList (<[i := assign child r' new]> l)
          | None => root
          end
      | _ => root
      end
  end.

(** Every reference the class holds names an object of the document
    (lemmas [descend_valid] and [walk_valid] below), so the default is never
    what is read. *)
Definition obj_at (root : value) (r : loc) : value :=
  default VNone (deref root r).
Arguments obj_at : simpl never.

(** ** Python operators on document values *)

Definition is_list (v : value) : bool :=
  match v with VList _ => true | _ => false end.

(** [x == k] for a string [k]. *)
Definition eq_str (k : string) (x : value) : bool :=
  match x with VStr s => String.eqb s k | _ => false end.

(** [k in o] for a string [k]. *)
Definition py_in (k : string) (o : value) : outcome bool :=
  match o with
  | VDict d => Return (bool_decide (is_Some (d !! k)))
  | VList l => Return (existsb (eq_str k) l)
  | VStr s => Return (Py.str_contains k s)
  | VNone | VBool _ | VInt _ => Raise TypeError
  end.

(** [o[k]] for a string [k]. *)
Definition py_getitem (o : value) (k : string) : outcome value :=
  match o with
  | VDict d =>
      match d !! k with
      | Some v => Return v
      | None => Raise (KeyError k)
      end
  | _ => Raise TypeError
  end.

(** [o[k] = v] for a string [k]: the object [o] after the assignment. *)
Definition py_setitem (o : value) (k : string) (v : value) : outcome value :=
  match o with
  | VDict d => Return (VDict (<[k := v]> d))
  | _ => Raise TypeError
  end.

(** [o.pop(k)] for a string [k] that is [in o]: the object [o] after the
    call.  A [list] wants an integer; a [str] has no [pop]. *)
Definition py_pop (o : value) (k : string) : outcome value :=
  match o with
  | VDict d =>
      match d !! k with
      | Some _ => Return (VDict (delete k d))
      | None => Raise (KeyError k)
      end
  | VList _ => Raise TypeError
  | _ => Raise AttributeError
  end.

(** The integer a value counts as in arithmetic ([bool] is a subclass of
    [int]). *)
Definition as_int (v : value) : option Z :=
  match v with
  | VInt n => Some n
  | VBool b => Some (if b then 1%Z else 0%Z)
  | _ => None
  end.

(** [a + b] on the values of the model: integer addition, concatenation
    of two [str] or of two [list]; a fresh object.  There being no
    [float] among the values, nothing is said of float addition. *)
Definition py_add (a b : value) : outcome value :=
  match a, b with
  | VStr s, VStr t => Return (VStr (s +:+ t))
  | VList l, VList m => Return (VList (l ++ m))
  | _, _ =>
      match as_int a, as_int b with
      | Some x, Some y => Return (VInt (x + y))
      | _, _ => Raise TypeError
      end
  end.

(** ** Methods as state transformers with exceptions *)

Definition M (A : Type) : Type := value -> outcome A * value.

Definition ret {A} (a : A) : M A := fun doc => (Return a, doc).
Definition raise {A} (e : exn) : M A := fun doc => (Raise e, doc).
Definition bind {A B} (m : M A) (k : A -> M B) : M B :=
  fun doc =>
    match m doc with
    | (Return a, doc') => k a doc'
    | (Raise e, doc') => (Raise e, doc')
    end.
Definition lift {A} (o : outcome A) : M A := fun doc => (o, doc).

Notation "'let*' x ':=' m 'in' k" := (bind m (fun x => k))
  (at level 10, x name, m at level 100, k at level 200).
Notation "'let*' ' pat ':=' m 'in' k" :=
  (bind m (fun x => match x with pat => k end))
  (at level 10, pat pattern, m at level 100, k at level 200).

(** Reading the object behind a reference, and mutating it. *)
Definition read (r : loc) : M value := fun doc => (Return (obj_at doc r), doc).
Definition write (r : loc) (new : value) : M unit :=
  fun doc => (Return tt, assign doc r new).

(** [k in r] *)
Definition contains (k : string) (r : loc) : M bool :=
  let* o := read r in lift (py_in k o).

(** [r[k]]: a reference to the item. *)
Definition getitem (r : loc) (k : string) : M loc :=
  let* o := read r in let* _ := lift (py_getitem o k) in ret (r ++ [Key k]).

(** [r[k] = v] *)
Definition setitem (r : loc) (k : string) (v : value) : M unit :=
  let* o := read r in let* o' := lift (py_setitem o k v) in write r o'.

(** [r.pop(k)] *)
Definition pop (r : loc) (k : string) : M unit :=
  let* o := read r in let* o' := lift (py_pop o k) in write r o'.

(** [r[i]] for a list [r] and a non-negative [i]: a reference to the
    element. *)
Definition list_getitem (r : loc) (i : nat) : M loc :=
  let* o := read r in
  match o with
  | VList l =>
      match l !! i with
      | Some _ => ret (r ++ [Idx i])
      | None => raise IndexError
      end
  | _ => raise TypeError
  end.

(** [for x in xs: body(x)] *)
Fixpoint for_each {A} (xs : list A) (body : A -> M unit) : M unit :=
  match xs with
  | [] => ret tt
  | x :: xs' => let* _ := body x in for_each xs' body
  end.

(** ** The class [YamlPatcher] *)

Module YamlPatcher.

(** [self.obj] *)
Definition self_obj : loc := [].

Definition _raise_illegal {A} (prop_path : string) : M A :=
  raise (RuntimeError ("illegal path: " +:+ prop_path)).

Definition _split_path (path : string) : list string :=
  let parts := Re.split_dots path in
  map (fun p => Py.replace "\\" "\" (Py.replace "\." "." p)) parts.

(** The body of the loop of [_get_object_by_path]: from [current] through
    [prop_segment] to the next [current]. *)
Definition descend (prop_path : string) (current : loc) (prop_segment : string)
  : M loc :=
  match Re.pattern_match prop_segment with
  | Some (property_name, digits) =>
      let index := Py.int_of_digits digits in
      let* present := contains property_name current in
      let* _ := if present then ret tt else _raise_illegal prop_path in
      let* item := getitem current property_name in
      let* v := read item in
      let* _ := if is_list v then ret tt else _raise_illegal prop_path in
      list_getitem item index
  | None =>
      let* present := contains prop_segment current in
      let* _ := if present then ret tt else setitem current prop_segment (VDict ∅) in
      getitem current prop_segment
  end.

Fixpoint walk (prop_path : string) (current : loc) (segments : list string)
  : M loc :=
  match segments with
  | [] => ret current
  | prop_segment :: rest =>
      let* next := descend prop_path current prop_segment in
      walk prop_path next rest
  end.

Definition _get_object_by_path (prop_path : string) : M loc :=
  walk prop_path self_obj (_split_path prop_path).

Definition _get_parent_obj_prop_name_by_path (prop_path : string)
  : M (loc * string) :=
  let split := _split_path prop_path in
  if (length split =? 1)%nat then ret (self_obj, prop_path)
  else
    let parent_path :=
      Py.join "." (map (fun p => Py.replace "." "\." p) (removelast split)) in
    let* parent_obj := _get_object_by_path parent_path in
    let prop_name := List.last split EmptyString in
    ret (parent_obj, prop_name).

Definition merge_obj (obj_prop_path : string) (merged_props : gmap string value)
  : M unit :=
  let* obj := _get_object_by_path obj_prop_path in
  for_each (map_to_list merged_props)
           (fun '(key, value) => setitem obj key value).

Definition set_value (prop_path : string) (new_value : value) : M unit :=
  let* '(obj, prop_name) := _get_parent_obj_prop_name_by_path prop_path in
  match Re.pattern_match prop_name with
  | Some (prop_name, digits) =>
      let index := Py.int_of_digits digits in
      let* obj := getitem obj prop_name in
      let* v := read obj in
      match v with
      | VList l =>
          if (length l <? index)%nat then
            raise (AssertionError ("Cannot set list value for " +:+ prop_path))
          else if (index =? length l)%nat then
            write obj (VList (l ++ [new_value]))
          else
            write obj (VList (<[index := new_value]> l))
      | _ =>
          raise (AssertionError
                   ("Cannot set list value for not list item in " +:+ prop_path))
      end
  | None => setitem obj prop_name new_value
  end.

Definition append_value (prop_path : string) (value : value) : M unit :=
  let* '(obj, prop_name) := _get_parent_obj_prop_name_by_path prop_path in
  let* item := getitem obj prop_name in
  let* old := read item in
  let* sum := lift (py_add old value) in
  setitem obj prop_name sum.

Definition delete_property (prop_path : string) (raise_if_missing : bool)
  : M unit :=
  let* '(obj, prop_name) := _get_parent_obj_prop_name_by_path prop_path in
  let* present := contains prop_name obj in
  if present then pop obj prop_name
  else if raise_if_missing then
    let* o := read obj in raise (KeyErrorDelete prop_name o)
  else ret tt.

End YamlPatcher.

(** ** Exception classes and the scope of a session *)

Inductive exn_class : Type :=
  | CRuntimeError | CAssertionError | CKeyError | CIndexError | CTypeError
  | CAttributeError | CIOError | CYAMLError.

(** [type(e)] *)
Definition class_of (e : exn) : exn_class :=
  match e with
  | RuntimeError _ => CRuntimeError
  | AssertionError _ => CAssertionError
  | KeyError _ | KeyErrorDelete _ _ => CKeyError
  | IndexError => CIndexError
  | TypeError => CTypeError
  | AttributeError => CAttributeError
  end.

(** How a block of code ends. *)
Inductive ending : Type :=
  | Normal
  | Raised (exc_type : exn_class).

Module Session.

(** The files on disk: their text by path. *)
Definition files : Type := gmap string string.

Record patcher : Type := Patcher {
  yaml_path : string;
  obj : value;
  is_json : bool;
  default_flow_style : bool
}.

Section Serializers.

(** [yaml.load], [json.dumps] and [yaml.safe_dump] are library code. *)
Variable yaml_load : string -> option value.
Variable json_dumps : value -> string.
Variable yaml_safe_dump : value -> bool -> string.

(** [YamlPatcher(yaml_path, is_json, default_flow_style)]: [Raised] when
    the file cannot be read or is not YAML. *)
Definition __init__ (yaml_path : string) (is_json default_flow_style : bool)
    (disk : files) : patcher + exn_class :=
  match disk !! yaml_path with
  | None => inr CIOError
  | Some text =>
      match yaml_load text with
      | None => inr CYAMLError
      | Some obj => inl (Patcher yaml_path obj is_json default_flow_style)
      end
  end.

Definition __enter__ (self : patcher) : patcher := self.

(** [exc_type] is [None] when the block ended normally and the class of
    the exception otherwise; a class is true.  The method returns [None],
    so the exception goes on. *)
Definition __exit__ (self : patcher) (exc : ending) (disk : files) : files :=
  match exc with
  | Normal =>
      let output :=
        if is_json self then json_dumps (obj self)
        else yaml_safe_dump (obj self) (default_flow_style self) in
      <[yaml_path self := output]> disk
  | Raised _ => disk
  end.

(** [with YamlPatcher(yaml_path, is_json, default_flow_style) as patch:
    body], for a body that only edits the document through [patch]. *)
Definition with_patcher (yaml_path : string) (is_json default_flow_style : bool)
    (body : M unit) (disk : files) : ending * files :=
  match __init__ yaml_path is_json default_flow_style disk with
  | inr c => (Raised c, disk)
  | inl self =>
      let patch := __enter__ self in
      let '(result, obj') := body (obj patch) in
      let patch' :=
        Patcher (Session.yaml_path patch) obj' (Session.is_json patch)
                (Session.default_flow_style patch) in
      match result with
      | Return _ => (Normal, __exit__ patch' Normal disk)
      | Raise e =>
          (Raised (class_of e), __exit__ patch' (Raised (class_of e)) disk)
      end
  end.

End Serializers.

End Session.

(** ** Strings that need no escaping *)

(** No character of [s] is [c]. *)
Fixpoint without (c : ascii) (s : string) : bool :=
  match s with
  | EmptyString => true
  | String x t => negb (Ascii.eqb x c) && without c t
  end.

(** Every character of [s] is a digit. *)
Fixpoint all_digits (s : string) : bool :=
  match s with
  | EmptyString => true
  | String x t => Py.is_digit x && all_digits t
  end.


(** ** [process_variables] *)

Module Variables.

Section Templates.

(** [jinja2.Template(source)] and [template.render], called with the
    template variables as keyword arguments, are library code; so are
    the exceptions they raise. *)
Variable jinja_error : Type.
Variable template : Type.
Variable Template : string -> jinja_error + template.
Variable render : template -> gmap string value -> jinja_error + string.

(** How [process_variables] fails: with an exception of the library, or
    with the [TypeError] of keyword arguments unpacked from something
    that is not a mapping. *)
Inductive failure : Type :=
  | Jinja (e : jinja_error)
  | KeywordsNotAMapping.

(** [suites_yaml.get('variables', {})] *)
Definition template_variables (suites_yaml : gmap string value) : value :=
  default (VDict ∅) (suites_yaml !! "variables").

(** The body of the loop: the value stored under the key. *)
Definition process_value (template_variables unprocessed_value : value)
  : failure + value :=
  match unprocessed_value with
  | VStr source =>
      match Template source with
      | inl e => inl (Jinja e)
      | inr t =>
          match template_variables with
          | VDict kwargs =>
              match render t kwargs with
              | inl e => inl (Jinja e)
              | inr text => inr (VStr text)
              end
          | _ => inl KeywordsNotAMapping
          end
      end
  | _ => inr unprocessed_value
  end.

Fixpoint process_items (template_variables : value)
    (items : list (string * value)) (result : gmap string value)
  : failure + gmap string value :=
  match items with
  | [] => inr result
  | (key, unprocessed_value) :: rest =>
      match process_value template_variables unprocessed_value with
      | inl e => inl e
      | inr value => process_items template_variables rest (<[key := value]> result)
      end
  end.

Definition process_variables (suites_yaml unprocessed_dict : gmap string value)
  : failure + gmap string value :=
  process_items (template_variables suites_yaml) (map_to_list unprocessed_dict) ∅.

End Templates.

End Variables.

(** ** Predicates used in the statements *)

Definition is_str (v : value) : bool :=
  match v with VStr _ => true | _ => false end.

(** A string value replaced by what [text] makes of it, any other value
    kept. *)
Definition render_with (text : string -> string) (v : value) : value :=
  match v with VStr s => VStr (text s) | _ => v end.

(** What it means for the value [before], found somewhere in a
    document, to be still there later, when [after] is found at the same
    place: a mapping is still a mapping and has lost no key, a list is
    still a list of the same length, anything else is unchanged. *)
Definition kept (before : value) (after : option value) : Prop :=
  match before, after with
  | VDict d, Some (VDict d') => dom d ⊆ dom d'
  | VList l, Some (VList l') => length l = length l'
  | VDict _, _ | VList _, _ => False
  | _, _ => after = Some before
  end.

(** Everything that [doc] has, [doc'] has kept. *)
Definition grows (doc doc' : value) : Prop :=
  forall (r : loc) (v : value), deref doc r = Some v -> kept v (deref doc' r).

(** The first character of [s] is a dot. *)
Definition starts_with_dot (s : string) : bool :=
  match s with
  | String c _ => Ascii.eqb c Re.dot
  | EmptyString => false
  end.

(** [x] put in front of the first string of a list. *)
Definition cons_head (x : string) (l : list string) : list string :=
  match l with
  | h :: t => (x +:+ h) :: t
  | [] => [x]
  end.



(** [doc_ab] after the mapping [x] has been created at the root. *)
Definition doc_ab_x : value :=
  VDict {[ "a" := VDict {[ "b" := VList [VInt 1; VInt 2; VInt 3] ]};
           "x" := VDict ∅ ]}.

(** ** Kinds of objects *)

Definition is_dict (v : value) : bool :=
  match v with VDict _ => true | _ => false end.

(** [None], a [bool] or an [int]: neither a container nor a string. *)
Definition is_scalar (v : value) : bool :=
  match v with VNone | VBool _ | VInt _ => true | _ => false end.

(** ** Documents and stand-ins used in the examples *)

(** The document [{a: {b: [1, 2, 3]}}]. *)
Definition doc_ab : value :=
  VDict {[ "a" := VDict {[ "b" := VList [VInt 1; VInt 2; VInt 3] ]} ]}.

(** The document [{list: [1], n: 5}]. *)
Definition doc_list : value :=
  VDict {[ "list" := VList [VInt 1]; "n" := VInt 5 ]}.

(** A disk with one YAML file, and stand-ins for the library calls. *)
Definition disk0 : Session.files := {[ "inputs.yaml" := "a: {b: [1, 2, 3]}" ]}.
Definition load0 (text : string) : option value := Some doc_ab.
Definition json0 (v : value) : string :=
  match v with VDict _ => "{...}" | _ => "?" end.
Definition yaml0 (v : value) (flow : bool) : string :=
  if flow then "{a: {b: [...]}}" else "a:".

(** The document [{a: {b: [1, 2, 3, 4]}}], and a loader that tells the
    two serializations above apart. *)
Definition doc_ab4 : value :=
  VDict {[ "a" := VDict {[ "b" := VList [VInt 1; VInt 2; VInt 3; VInt 4] ]} ]}.
Definition json1 (v : value) : string :=
  match deref v [Key "a"; Key "b"] with
  | Some (VList l) =>
      if (length l =? 4)%nat then "{a: {b: [1, 2, 3, 4]}}"
      else "{a: {b: [1, 2, 3]}}"
  | _ => "null"
  end.
Definition load1 (text : string) : option value :=
  if String.eqb text "{a: {b: [1, 2, 3, 4]}}" then Some doc_ab4 else Some doc_ab.

(** [doc_ab] after [c] has been set to 7 under [a], and after the
    mappings [x] and [x.y] have been created under [a]. *)
Definition doc_abc : value :=
  VDict {[ "a" := VDict {[ "b" := VList [VInt 1; VInt 2; VInt 3];
                           "c" := VInt 7 ]} ]}.
Definition doc_axy : value :=
  VDict {[ "a" := VDict {[ "b" := VList [VInt 1; VInt 2; VInt 3];
                           "x" := VDict {[ "y" := VDict ∅ ]} ]} ]}.

(** The document [{a: null}]. *)
Definition doc_null : value := VDict {[ "a" := VNone ]}.

(** A template engine that puts its source between angle brackets. *)
Definition Template0 (source : string) : unit + string := inr source.
Definition render0 (t : string) (kwargs : gmap string value) : unit + string :=
  inr ("<" +:+ t +:+ ">").

(** * Properties *)

Import YamlPatcher.

(** ** What the two regular expressions compute *)

Lemma append_cons (c : ascii) (s t : string) :
  String c s +:+ t = String c (s +:+ t).
Proof. reflexivity. Qed.


Lemma without_cons (c x : ascii) (s : string) :
  without c (String x s) = true -> Ascii.eqb x c = false /\ without c s = true.
Proof.
  simpl. intros H. apply andb_true_iff in H as [H1 H2].
  by apply negb_true_iff in H1.
Qed.

Lemma append_nil (t : string) : EmptyString +:+ t = t.
Proof. reflexivity. Qed.

Lemma span_digits_spec (s : string) :
  s = (Re.span_digits s).1 +:+ (Re.span_digits s).2
  /\ all_digits (Re.span_digits s).1 = true.
Proof.
  induction s as [|c s [IH1 IH2]]; [done|].
  cbn [Re.span_digits]. destruct (Py.is_digit c) eqn:E; [|done].
  destruct (Re.span_digits s) as [ds rest]. cbn [fst snd] in *.
  split; [by rewrite append_cons, <- IH1|].
  change (all_digits (String c ds)) with (Py.is_digit c && all_digits ds).
  by rewrite E, IH2.
Qed.

Lemma span_digits_app (ds rest : string) (c : ascii) :
  all_digits ds = true -> Py.is_digit c = false ->
  Re.span_digits (ds +:+ String c rest) = (ds, String c rest).
Proof.
  intros Hds Hc. induction ds as [|x ds IH].
  - rewrite append_nil. cbn [Re.span_digits]. by rewrite Hc.
  - change (all_digits (String x ds)) with (Py.is_digit x && all_digits ds) in Hds.
    apply andb_true_iff in Hds as [Hx Hds].
    rewrite append_cons. cbn [Re.span_digits]. by rewrite Hx, (IH Hds).
Qed.

(** The shape [\[ digits \]] at the start of a string. *)
Lemma match_index_sound (s ds : string) :
  Re.match_index s = Some ds ->
  exists rest : string,
    s = "[" +:+ ds +:+ "]" +:+ rest
    /\ ds <> EmptyString /\ all_digits ds = true.
Proof.
  unfold Re.match_index. destruct s as [|c t]; [done|].
  destruct (Ascii.eqb_spec c "[") as [->|Hne];
    [|by destruct c as [[] [] [] [] [] [] [] []]].
  destruct (span_digits_spec t) as [Ht Hd].
  destruct (Re.span_digits t) as [[|d ds'] [|c' rest]]; cbn [fst snd] in *;
    try done.
  destruct (Ascii.eqb_spec c' "]") as [->|Hne];
    [|by destruct c' as [[] [] [] [] [] [] [] []]].
  intros [= <-]. exists rest. split; [|done].
  by rewrite Ht.
Qed.

Lemma match_index_complete (ds rest : string) :
  ds <> EmptyString -> all_digits ds = true ->
  Re.match_index ("[" +:+ ds +:+ "]" +:+ rest) = Some ds.
Proof.
  intros Hne Hds. change ("[" +:+ ds +:+ "]" +:+ rest)
    with (String "[" (ds +:+ String "]" rest)).
  cbn [Re.match_index]. rewrite (span_digits_app _ _ _ Hds) by reflexivity.
  by destruct ds.
Qed.

Lemma match_rest_sound (s : string) :
  forall g ds : string,
    Re.match_rest s = Some (g, ds) ->
    exists rest : string,
      s = g +:+ "[" +:+ ds +:+ "]" +:+ rest
      /\ without Re.newline g = true
      /\ ds <> EmptyString /\ all_digits ds = true.
Proof.
  induction s as [|c t IH]; intros g ds; [done|].
  cbn [Re.match_rest].
  assert (Hhere : (fun ds0 : string => (EmptyString, ds0))
                    <$> Re.match_index (String c t) = Some (g, ds) ->
                  exists rest : string,
                    String c t = g +:+ "[" +:+ ds +:+ "]" +:+ rest
                    /\ without Re.newline g = true
                    /\ ds <> EmptyString /\ all_digits ds = true).
  { destruct (Re.match_index (String c t)) as [ds0|] eqn:E; [|done].
    intros [= <- <-]. apply match_index_sound in E as (rest & -> & ? & ?).
    by exists rest. }
  destruct (Ascii.eqb c Re.newline) eqn:Ec; [done|].
  destruct (Re.match_rest t) as [[g0 ds0]|]; [|done].
  intros [= <- <-]. destruct (IH _ _ eq_refl) as (rest & -> & Hg & Hne & Hds).
  exists rest. split; [done|]. split; [|done].
  cbn [without]. by rewrite Ec, Hg.
Qed.

(** X1.  [pattern.match] succeeds only on a string that starts with a
    non-empty group 1 without newline, a bracket, a non-empty group 2 of
    digits and a closing bracket. *)
Lemma pattern_match_sound (s g ds : string) :
  Re.pattern_match s = Some (g, ds) ->
  exists rest : string,
    s = g +:+ "[" +:+ ds +:+ "]" +:+ rest
    /\ g <> EmptyString /\ without Re.newline g = true
    /\ ds <> EmptyString /\ all_digits ds = true.
Proof.
  unfold Re.pattern_match. destruct s as [|c t]; [done|].
  destruct (Ascii.eqb c Re.newline) eqn:Ec; [done|].
  destruct (Re.match_rest t) as [[g0 ds0]|] eqn:E; [|done].
  intros [= <- <-]. apply match_rest_sound in E as (rest & -> & Hg & Hne & Hds).
  exists rest. split; [done|]. split; [done|]. split; [|done].
  cbn [without]. by rewrite Ec, Hg.
Qed.

Lemma match_rest_greedy (g ds rest : string) :
  without Re.newline g = true -> ds <> EmptyString -> all_digits ds = true ->
  exists g' ds' : string,
    Re.match_rest (g +:+ "[" +:+ ds +:+ "]" +:+ rest) = Some (g', ds')
    /\ (String.length g <= String.length g')%nat.
Proof.
  intros Hg Hne Hds. induction g as [|c g IH].
  - change (EmptyString +:+ "[" +:+ ds +:+ "]" +:+ rest)
      with (String "[" (ds +:+ "]" +:+ rest)).
    cbn [Re.match_rest].
    change (String "[" (ds +:+ "]" +:+ rest)) with ("[" +:+ ds +:+ "]" +:+ rest).
    rewrite (match_index_complete _ _ Hne Hds).
    change (Ascii.eqb "[" Re.newline) with false. cbn iota.
    destruct (Re.match_rest (ds +:+ "]" +:+ rest)) as [[g0 ds0]|].
    + eexists _, _. split; [done|]. simpl. lia.
    + eexists _, _. split; [done|]. simpl. lia.
  - apply without_cons in Hg as [Hc Hg]. destruct (IH Hg) as (g' & ds' & E & Hlen).
    rewrite append_cons. cbn [Re.match_rest]. rewrite Hc, E.
    eexists _, _. split; [done|]. simpl. lia.
Qed.

(** X2.  [pattern.match] succeeds on every such string, and no other way of
    cutting the string has a longer group 1: the match is the greedy
    one. *)
Lemma pattern_match_greedy (g ds rest : string) :
  g <> EmptyString -> without Re.newline g = true ->
  ds <> EmptyString -> all_digits ds = true ->
  exists g' ds' : string,
    Re.pattern_match (g +:+ "[" +:+ ds +:+ "]" +:+ rest) = Some (g', ds')
    /\ (String.length g <= String.length g')%nat.
Proof.
  intros Hgne Hg Hne Hds. destruct g as [|c g]; [done|].
  apply without_cons in Hg as [Hc Hg].
  destruct (match_rest_greedy g ds rest Hg Hne Hds) as (g' & ds' & E & Hlen).
  rewrite append_cons. unfold Re.pattern_match. rewrite Hc, E.
  eexists _, _. split; [done|]. simpl. lia.
Qed.

Lemma split_from_nonempty (s : string) (p2 p1 : option ascii) :
  Re.split_from p2 p1 s <> [].
Proof.
  destruct s as [|c t]; [done|]. cbn [Re.split_from].
  destruct (Ascii.eqb c Re.dot && negb (Re.lookbehind p2 p1)); [done|].
  by destruct (Re.split_from p1 (Some c) t).
Qed.

Lemma join_cons (sep p : string) (parts : list string) :
  parts <> [] -> Py.join sep (p :: parts) = p +:+ sep +:+ Py.join sep parts.
Proof. by destruct parts. Qed.

(** The segments, put together again with dots, are the path. *)
Lemma join_split_from (s : string) :
  forall p2 p1 : option ascii, Py.join "." (Re.split_from p2 p1 s) = s.
Proof.
  induction s as [|c t IH]; intros p2 p1; [done|].
  cbn [Re.split_from]. specialize (IH p1 (Some c)).
  pose proof (split_from_nonempty t p1 (Some c)) as Hne.
  destruct (Ascii.eqb c Re.dot && negb (Re.lookbehind p2 p1)) eqn:E.
  - apply andb_true_iff in E as [E _]. apply Ascii.eqb_eq in E as ->.
    by rewrite (join_cons _ _ _ Hne), IH.
  - destruct (Re.split_from p1 (Some c) t) as [|seg more]; [done|].
    rewrite <- IH. destruct more as [|seg' more]; [done|].
    by rewrite !join_cons by done.
Qed.

(** ** References into the document *)

Lemma deref_app (doc : value) (r1 r2 : loc) :
  deref doc (r1 ++ r2) = deref doc r1 ≫= (fun c => deref c r2).
Proof.
  revert doc; induction r1 as [|[k|i] r1 IH]; intros doc; simpl; [done| |].
  - destruct doc; try done. destruct (d !! k); simpl; auto.
  - destruct doc; try done. destruct (l !! i); simpl; auto.
Qed.

Lemma deref_key (doc : value) (r : loc) (k : string) (d : gmap string value) :
  deref doc r = Some (VDict d) -> deref doc (r ++ [Key k]) = d !! k.
Proof.
  intros H. rewrite deref_app, H. simpl. destruct (d !! k); done.
Qed.

Lemma deref_idx (doc : value) (r : loc) (i : nat) (l : list value) :
  deref doc r = Some (VList l) -> deref doc (r ++ [Idx i]) = l !! i.
Proof.
  intros H. rewrite deref_app, H. simpl. destruct (l !! i); done.
Qed.

Lemma deref_assign (doc : value) (r : loc) (new : value) :
  is_Some (deref doc r) -> deref (assign doc r new) r = Some new.
Proof.
  revert doc; induction r as [|[k|i] r IH]; intros doc; simpl; [done| |].
  - destruct doc; try (intros [? ?]; done).
    destruct (d !! k) as [c|] eqn:E; simpl; [|intros [? ?]; done].
    intros Hc. rewrite lookup_insert_eq. simpl. auto.
  - destruct doc; try (intros [? ?]; done).
    destruct (l !! i) as [c|] eqn:E; simpl; [|intros [? ?]; done].
    intros Hc. rewrite list_lookup_insert_eq by (by eapply lookup_lt_Some).
    simpl. auto.
Qed.

Lemma assign_assign (doc : value) (r : loc) (a b : value) :
  assign (assign doc r a) r b = assign doc r b.
Proof.
  revert doc; induction r as [|[k|i] r IH]; intros doc; simpl; [done| |].
  - destruct doc; try done.
    destruct (d !! k) as [c|] eqn:E; simpl; [|by rewrite E].
    rewrite lookup_insert_eq, insert_insert_eq, IH. done.
  - destruct doc; try done.
    destruct (l !! i) as [c|] eqn:E; simpl; [|by rewrite E].
    rewrite list_lookup_insert_eq by (by eapply lookup_lt_Some).
    rewrite list_insert_insert_eq, IH. done.
Qed.

Lemma assign_same (doc : value) (r : loc) (v : value) :
  deref doc r = Some v -> assign doc r v = doc.
Proof.
  revert doc; induction r as [|[k|i] r IH]; intros doc; simpl.
  - congruence.
  - destruct doc; try done.
    destruct (d !! k) as [c|] eqn:E; simpl; [|done].
    intros H. rewrite IH by done. by rewrite insert_id.
  - destruct doc; try done.
    destruct (l !! i) as [c|] eqn:E; simpl; [|done].
    intros H. rewrite IH by done. by rewrite list_insert_id.
Qed.

Lemma assign_app (doc : value) (r1 r2 : loc) (c new : value) :
  deref doc r1 = Some c ->
  assign doc (r1 ++ r2) new = assign doc r1 (assign c r2 new).
Proof.
  revert doc; induction r1 as [|[k|i] r1 IH]; intros doc; simpl.
  - congruence.
  - destruct doc; try done.
    destruct (d !! k) as [x|] eqn:E; simpl; [|done].
    intros H. by rewrite (IH _ H).
  - destruct doc; try done.
    destruct (l !! i) as [x|] eqn:E; simpl; [|done].
    intros H. by rewrite (IH _ H).
Qed.

Lemma obj_at_deref (doc : value) (r : loc) (v : value) :
  deref doc r = Some v -> obj_at doc r = v.
Proof. unfold obj_at. by intros ->. Qed.

(** ** Running the primitives *)

Lemma bind_Return {A B} (m : M A) (k : A -> M B) (doc doc' : value) (a : A) :
  m doc = (Return a, doc') -> bind m k doc = k a doc'.
Proof. unfold bind. by intros ->. Qed.

Lemma bind_Raise {A B} (m : M A) (k : A -> M B) (doc doc' : value) (e : exn) :
  m doc = (Raise e, doc') -> bind m k doc = (Raise e, doc').
Proof. unfold bind. by intros ->. Qed.

Lemma bind_inv {A B} (m : M A) (k : A -> M B) (doc doc2 : value) (b : B) :
  bind m k doc = (Return b, doc2) ->
  exists a doc1, m doc = (Return a, doc1) /\ k a doc1 = (Return b, doc2).
Proof.
  unfold bind. destruct (m doc) as [[a|e] doc1]; [eauto|discriminate].
Qed.

Section OnObject.

Variables (doc : value) (r : loc) (o : value).
Hypothesis Hr : deref doc r = Some o.

Lemma read_run : read r doc = (Return o, doc).
Proof. unfold read. by rewrite (obj_at_deref _ _ _ Hr). Qed.

Lemma contains_run (k : string) : contains k r doc = (py_in k o, doc).
Proof. unfold contains. by rewrite (bind_Return _ _ _ _ _ read_run). Qed.

Lemma getitem_run (k : string) :
  getitem r k doc =
    (match py_getitem o k with
     | Return _ => Return (r ++ [Key k])
     | Raise e => Raise e
     end, doc).
Proof.
  unfold getitem. rewrite (bind_Return _ _ _ _ _ read_run).
  unfold bind, lift, ret. by destruct (py_getitem o k).
Qed.

Lemma setitem_run (k : string) (v : value) :
  setitem r k v doc =
    match py_setitem o k v with
    | Return o' => (Return tt, assign doc r o')
    | Raise e => (Raise e, doc)
    end.
Proof.
  unfold setitem. rewrite (bind_Return _ _ _ _ _ read_run).
  unfold bind, lift, write. by destruct (py_setitem o k v).
Qed.

Lemma pop_run (k : string) :
  pop r k doc =
    match py_pop o k with
    | Return o' => (Return tt, assign doc r o')
    | Raise e => (Raise e, doc)
    end.
Proof.
  unfold pop. rewrite (bind_Return _ _ _ _ _ read_run).
  unfold bind, lift, write. by destruct (py_pop o k).
Qed.

End OnObject.

Section OnDict.

Variables (doc : value) (r : loc) (d : gmap string value).
Hypothesis Hr : deref doc r = Some (VDict d).

Lemma contains_dict_Some (k : string) (v : value) :
  d !! k = Some v -> contains k r doc = (Return true, doc).
Proof.
  intros H. rewrite (contains_run _ _ _ Hr). simpl.
  by rewrite bool_decide_eq_true_2.
Qed.

Lemma contains_dict_None (k : string) :
  d !! k = None -> contains k r doc = (Return false, doc).
Proof.
  intros H. rewrite (contains_run _ _ _ Hr). simpl.
  rewrite bool_decide_eq_false_2; [done|]. rewrite H. by intros [? ?].
Qed.

Lemma getitem_dict_Some (k : string) (v : value) :
  d !! k = Some v -> getitem r k doc = (Return (r ++ [Key k]), doc).
Proof. intros H. rewrite (getitem_run _ _ _ Hr). simpl. by rewrite H. Qed.

Lemma getitem_dict_None (k : string) :
  d !! k = None -> getitem r k doc = (Raise (KeyError k), doc).
Proof. intros H. rewrite (getitem_run _ _ _ Hr). simpl. by rewrite H. Qed.

Lemma setitem_dict (k : string) (v : value) :
  setitem r k v doc = (Return tt, assign doc r (VDict (<[k := v]> d))).
Proof. by rewrite (setitem_run _ _ _ Hr). Qed.

Lemma pop_dict (k : string) (v : value) :
  d !! k = Some v -> pop r k doc = (Return tt, assign doc r (VDict (delete k d))).
Proof. intros H. rewrite (pop_run _ _ _ Hr). simpl. by rewrite H. Qed.

Lemma deref_item (k : string) : deref doc (r ++ [Key k]) = d !! k.
Proof. by apply deref_key. Qed.

Lemma read_item (k : string) (v : value) :
  d !! k = Some v -> read (r ++ [Key k]) doc = (Return v, doc).
Proof. intros H. apply read_run. by rewrite deref_item. Qed.

(** After [r[k] = v] the object behind [r] is the updated mapping and the
    item behind [r[k]] is [v]. *)
Lemma deref_setitem (k : string) (v : value) :
  deref (assign doc r (VDict (<[k := v]> d))) r = Some (VDict (<[k := v]> d))
  /\ deref (assign doc r (VDict (<[k := v]> d))) (r ++ [Key k]) = Some v.
Proof.
  assert (H : deref (assign doc r (VDict (<[k := v]> d))) r
              = Some (VDict (<[k := v]> d))).
  { apply deref_assign. rewrite Hr. eauto. }
  split; [done|]. rewrite (deref_key _ _ _ _ H). apply lookup_insert_eq.
Qed.

End OnDict.

Lemma list_getitem_list (doc : value) (r : loc) (l : list value) (i : nat) :
  deref doc r = Some (VList l) ->
  list_getitem r i doc =
    (if decide (i < length l)%nat then Return (r ++ [Idx i]) else Raise IndexError,
     doc).
Proof.
  intros Hr. unfold list_getitem. rewrite (bind_Return _ _ _ _ _ (read_run _ _ _ Hr)).
  destruct (l !! i) as [x|] eqn:E.
  - apply lookup_lt_Some in E. by rewrite decide_True.
  - apply lookup_ge_None in E. rewrite decide_False by lia. done.
Qed.

(** ** Every reference names an object of the document *)

Lemma descend_valid (prop_path seg : string) (cur next : loc) (doc doc' : value) :
  is_Some (deref doc cur) ->
  descend prop_path cur seg doc = (Return next, doc') ->
  is_Some (deref doc' next).
Proof.
  intros [o Ho]. unfold descend.
  destruct (Re.pattern_match seg) as [[name ds]|]; intros H.
  - apply bind_inv in H as (present & doc1 & H1 & H).
    rewrite (contains_run _ _ _ Ho) in H1. injection H1 as H1 <-.
    apply bind_inv in H as ([] & doc2 & H2 & H).
    destruct present; [|discriminate]. injection H2 as <-.
    apply bind_inv in H as (item & doc3 & H3 & H).
    rewrite (getitem_run _ _ _ Ho) in H3.
    destruct o; try discriminate. simpl in H3.
    destruct (d !! name) as [v|] eqn:E; [|discriminate].
    injection H3 as <- <-.
    apply bind_inv in H as (v' & doc4 & H4 & H).
    rewrite (read_item _ _ _ Ho _ _ E) in H4. injection H4 as <- <-.
    apply bind_inv in H as ([] & doc5 & H5 & H).
    destruct v; try discriminate. injection H5 as <-.
    assert (Hl : deref doc (cur ++ [Key name]) = Some (VList l))
      by (by rewrite (deref_item _ _ _ Ho)).
    rewrite (list_getitem_list _ _ _ _ Hl) in H.
    case_decide; [|discriminate]. injection H as <- <-.
    rewrite (deref_idx _ _ _ _ Hl). by apply lookup_lt_is_Some_2.
  - apply bind_inv in H as (present & doc1 & H1 & H).
    rewrite (contains_run _ _ _ Ho) in H1. injection H1 as H1 <-.
    apply bind_inv in H as ([] & doc2 & H2 & H).
    destruct o; try discriminate.
    + destruct present.
      * injection H2 as <-. rewrite (getitem_run _ _ _ Ho) in H. discriminate.
      * rewrite (setitem_run _ _ _ Ho) in H2. discriminate.
    + destruct present.
      * injection H2 as <-. rewrite (getitem_run _ _ _ Ho) in H. discriminate.
      * rewrite (setitem_run _ _ _ Ho) in H2. discriminate.
    + simpl in H1. injection H1 as <-.
      destruct (d !! seg) as [v|] eqn:E.
      * rewrite bool_decide_eq_true_2 in H2 by eauto. injection H2 as <-.
        rewrite (getitem_dict_Some _ _ _ Ho _ _ E) in H. injection H as <- <-.
        rewrite (deref_item _ _ _ Ho). rewrite E. eauto.
      * rewrite bool_decide_eq_false_2 in H2 by (by intros [? ?]).
        rewrite (setitem_dict _ _ _ Ho) in H2. injection H2 as <-.
        destruct (deref_setitem doc cur d Ho seg (VDict ∅)) as [Ha Hb].
        rewrite (getitem_dict_Some _ _ _ Ha seg (VDict ∅)) in H
          by apply lookup_insert_eq.
        injection H as <- <-. rewrite Hb. eauto.
Qed.

Lemma walk_valid (prop_path : string) (segments : list string) :
  forall (cur next : loc) (doc doc' : value),
    is_Some (deref doc cur) ->
    walk prop_path cur segments doc = (Return next, doc') ->
    is_Some (deref doc' next).
Proof.
  induction segments as [|seg rest IH]; intros cur next doc doc' Hv; simpl.
  - unfold ret. by intros [= <- <-].
  - intros H. apply bind_inv in H as (mid & doc1 & H1 & H).
    eapply IH; [|exact H]. eapply descend_valid; eauto.
Qed.

Lemma _get_object_by_path_valid (prop_path : string) (doc doc' : value) (obj : loc) :
  _get_object_by_path prop_path doc = (Return obj, doc') ->
  is_Some (deref doc' obj).
Proof. apply walk_valid. simpl. eauto. Qed.

Lemma _get_parent_obj_prop_name_by_path_valid
    (prop_path prop_name : string) (doc doc' : value) (obj : loc) :
  _get_parent_obj_prop_name_by_path prop_path doc = (Return (obj, prop_name), doc') ->
  is_Some (deref doc' obj).
Proof.
  unfold _get_parent_obj_prop_name_by_path.
  destruct (length (_split_path prop_path) =? 1)%nat.
  - unfold ret. intros [= <- _ <-]. simpl. eauto.
  - intros H. apply bind_inv in H as (p & doc1 & H1 & H).
    unfold ret in H. injection H as <- _ <-.
    by eapply _get_object_by_path_valid.
Qed.

(** ** One segment of the walk, from a mapping *)

Section Descend.

Variables (prop_path : string) (doc : value) (cur : loc) (d : gmap string value).
Hypothesis Hcur : deref doc cur = Some (VDict d).

Lemma descend_plain_absent (seg : string) :
  Re.pattern_match seg = None ->
  d !! seg = None ->
  descend prop_path cur seg doc
  = (Return (cur ++ [Key seg]), assign doc cur (VDict (<[seg := VDict ∅]> d))).
Proof.
  intros Hm Hk. unfold descend. rewrite Hm.
  rewrite (bind_Return _ _ _ _ _ (contains_dict_None _ _ _ Hcur _ Hk)).
  rewrite (bind_Return _ _ _ _ _ (setitem_dict _ _ _ Hcur _ _)).
  destruct (deref_setitem doc cur d Hcur seg (VDict ∅)) as [Ha _].
  apply (getitem_dict_Some _ _ _ Ha seg (VDict ∅)), lookup_insert_eq.
Qed.

Lemma descend_plain_present (seg : string) (v : value) :
  Re.pattern_match seg = None ->
  d !! seg = Some v ->
  descend prop_path cur seg doc = (Return (cur ++ [Key seg]), doc).
Proof.
  intros Hm Hk. unfold descend. rewrite Hm.
  rewrite (bind_Return _ _ _ _ _ (contains_dict_Some _ _ _ Hcur _ _ Hk)).
  unfold ret at 1, bind at 1.
  apply (getitem_dict_Some _ _ _ Hcur _ _ Hk).
Qed.

Lemma descend_indexed_absent (seg name digits : string) :
  Re.pattern_match seg = Some (name, digits) ->
  d !! name = None ->
  descend prop_path cur seg doc
  = (Raise (RuntimeError ("illegal path: " +:+ prop_path)), doc).
Proof.
  intros Hm Hk. unfold descend. rewrite Hm.
  rewrite (bind_Return _ _ _ _ _ (contains_dict_None _ _ _ Hcur _ Hk)).
  reflexivity.
Qed.

Lemma descend_indexed_not_list (seg name digits : string) (v : value) :
  Re.pattern_match seg = Some (name, digits) ->
  d !! name = Some v ->
  is_list v = false ->
  descend prop_path cur seg doc
  = (Raise (RuntimeError ("illegal path: " +:+ prop_path)), doc).
Proof.
  intros Hm Hk Hv. unfold descend. rewrite Hm.
  rewrite (bind_Return _ _ _ _ _ (contains_dict_Some _ _ _ Hcur _ _ Hk)).
  unfold ret at 1, bind at 1.
  rewrite (bind_Return _ _ _ _ _ (getitem_dict_Some _ _ _ Hcur _ _ Hk)).
  rewrite (bind_Return _ _ _ _ _ (read_item _ _ _ Hcur _ _ Hk)).
  rewrite Hv. reflexivity.
Qed.

Lemma descend_indexed_list (seg name digits : string) (l : list value) :
  Re.pattern_match seg = Some (name, digits) ->
  d !! name = Some (VList l) ->
  descend prop_path cur seg doc
  = (if decide (Py.int_of_digits digits < length l)%nat
     then Return (cur ++ [Key name] ++ [Idx (Py.int_of_digits digits)])
     else Raise IndexError, doc).
Proof.
  intros Hm Hk. unfold descend. rewrite Hm.
  rewrite (bind_Return _ _ _ _ _ (contains_dict_Some _ _ _ Hcur _ _ Hk)).
  unfold ret at 1, bind at 1.
  rewrite (bind_Return _ _ _ _ _ (getitem_dict_Some _ _ _ Hcur _ _ Hk)).
  rewrite (bind_Return _ _ _ _ _ (read_item _ _ _ Hcur _ _ Hk)).
  simpl is_list. unfold ret at 1, bind at 1.
  rewrite (list_getitem_list _ _ l) by (by rewrite (deref_item _ _ _ Hcur)).
  by rewrite <- app_assoc.
Qed.

End Descend.

Lemma walk_app (prop_path : string) (pre post : list string) :
  forall (cur : loc) (doc : value),
    walk prop_path cur (pre ++ post) doc
    = bind (walk prop_path cur pre) (fun mid => walk prop_path mid post) doc.
Proof.
  induction pre as [|seg pre IH]; intros cur doc; simpl; [done|].
  unfold bind.
  destruct (descend prop_path cur seg doc) as [[mid|e] doc1]; [|done].
  by rewrite IH.
Qed.

(** The walk up to a segment, that segment, and the walk after it. *)
Lemma walk_through (prop_path : string) (pre post : list string) (seg : string)
    (doc doc1 : value) (cur : loc) :
  walk prop_path self_obj pre doc = (Return cur, doc1) ->
  walk prop_path self_obj (pre ++ seg :: post) doc
  = bind (descend prop_path cur seg) (fun next => walk prop_path next post) doc1.
Proof.
  intros H. rewrite walk_app. by rewrite (bind_Return _ _ _ _ _ H).
Qed.

(** C3.  [_get_object_by_path] walks the segments of the path in turn.
    Take any segment of the path, reached with the mapping [d] as the
    current object.  If it is a plain key that [d] does not have, the key
    is created with an empty mapping as its value, the walk goes on from
    that new mapping, and nothing else changes.  If it has the indexed
    form [name[index]], the walk stops with [RuntimeError("illegal
    path: ...")] (the specification's PathError) when [d] has no [name]
    or when the value under [name] is not a list, and with [IndexError]
    when the list has no element [index]; the document stays as it
    was when the segment was reached. *)
Theorem resolution_segment
    (prop_path : string) (pre post : list string) (seg : string)
    (doc doc1 : value) (cur : loc) (d : gmap string value) :
  _split_path prop_path = pre ++ seg :: post ->
  walk prop_path self_obj pre doc = (Return cur, doc1) ->
  deref doc1 cur = Some (VDict d) ->
  (Re.pattern_match seg = None -> d !! seg = None ->
     let doc2 := assign doc1 cur (VDict (<[seg := VDict ∅]> d)) in
     _get_object_by_path prop_path doc = walk prop_path (cur ++ [Key seg]) post doc2
     /\ deref doc2 cur = Some (VDict (<[seg := VDict ∅]> d))
     /\ deref doc2 (cur ++ [Key seg]) = Some (VDict ∅))
  /\ (forall name digits : string,
        Re.pattern_match seg = Some (name, digits) ->
        (d !! name = None ->
           _get_object_by_path prop_path doc
           = (Raise (RuntimeError ("illegal path: " +:+ prop_path)), doc1))
        /\ (forall v : value, d !! name = Some v -> is_list v = false ->
              _get_object_by_path prop_path doc
              = (Raise (RuntimeError ("illegal path: " +:+ prop_path)), doc1))
        /\ (forall l : list value, d !! name = Some (VList l) ->
              (length l <= Py.int_of_digits digits)%nat ->
              _get_object_by_path prop_path doc = (Raise IndexError, doc1))).
Proof.
  intros Hsplit Hpre Hcur. unfold _get_object_by_path. rewrite Hsplit.
  rewrite (walk_through _ _ _ _ _ _ _ Hpre). split.
  - intros Hm Hk. split; [|by apply deref_setitem].
    by rewrite (bind_Return _ _ _ _ _ (descend_plain_absent _ _ _ _ Hcur _ Hm Hk)).
  - intros name digits Hm. repeat split.
    + intros Hk.
      by rewrite (bind_Raise _ _ _ _ _ (descend_indexed_absent _ _ _ _ Hcur _ _ _ Hm Hk)).
    + intros v Hk Hv.
      by rewrite (bind_Raise _ _ _ _ _
                    (descend_indexed_not_list _ _ _ _ Hcur _ _ _ _ Hm Hk Hv)).
    + intros l Hk Hlen.
      assert (H := descend_indexed_list prop_path _ _ _ Hcur _ _ _ _ Hm Hk).
      rewrite decide_False in H by lia.
      by rewrite (bind_Raise _ _ _ _ _ H).
Qed.

(** ** The operations on the resolved parent *)

(** C2.  [set_value] on a path whose last segment is [name[index]], the
    parent being a mapping in which [name] holds a list of length [L]:
    with [index = L] the value is appended and the list has [L + 1]
    elements; with [index < L] the element at [index] becomes the value,
    the other elements and the length stay; with [index > L] the call
    raises [AssertionError("Cannot set list value for <path>")] (the
    specification's IndexOutOfRange) and the list is untouched. *)
Theorem set_value_indexed
    (prop_path : string) (new_value : value) (doc doc1 : value) (obj : loc)
    (prop_name name digits : string) (d : gmap string value) (l : list value) :
  _get_parent_obj_prop_name_by_path prop_path doc = (Return (obj, prop_name), doc1) ->
  Re.pattern_match prop_name = Some (name, digits) ->
  deref doc1 obj = Some (VDict d) ->
  d !! name = Some (VList l) ->
  let index := Py.int_of_digits digits in
  let arr := obj ++ [Key name] in
  (index = length l ->
     let doc2 := assign doc1 arr (VList (l ++ [new_value])) in
     set_value prop_path new_value doc = (Return tt, doc2)
     /\ deref doc2 arr = Some (VList (l ++ [new_value]))
     /\ length (l ++ [new_value]) = S (length l))
  /\ ((index < length l)%nat ->
     let doc2 := assign doc1 arr (VList (<[index := new_value]> l)) in
     set_value prop_path new_value doc = (Return tt, doc2)
     /\ deref doc2 arr = Some (VList (<[index := new_value]> l))
     /\ length (<[index := new_value]> l) = length l
     /\ <[index := new_value]> l !! index = Some new_value
     /\ (forall j : nat, j <> index -> <[index := new_value]> l !! j = l !! j))
  /\ ((length l < index)%nat ->
     set_value prop_path new_value doc
     = (Raise (AssertionError ("Cannot set list value for " +:+ prop_path)), doc1)
     /\ deref doc1 arr = Some (VList l)).
Proof.
  intros Hres Hm Hobj Hk index arr.
  assert (Harr : deref doc1 arr = Some (VList l))
    by (unfold arr; by rewrite (deref_item _ _ _ Hobj)).
  assert (Hrun : set_value prop_path new_value doc
    = (if (length l <? index)%nat then
         raise (AssertionError ("Cannot set list value for " +:+ prop_path))
       else if (index =? length l)%nat then
         write arr (VList (l ++ [new_value]))
       else write arr (VList (<[index := new_value]> l))) doc1).
  { unfold set_value. rewrite (bind_Return _ _ _ _ _ Hres). rewrite Hm.
    rewrite (bind_Return _ _ _ _ _ (getitem_dict_Some _ _ _ Hobj _ _ Hk)).
    by rewrite (bind_Return _ _ _ _ _ (read_run _ _ _ Harr)). }
  rewrite Hrun. split; [|split].
  - intros Heq doc2. split; [|split].
    + rewrite (proj2 (Nat.ltb_ge _ _)) by lia.
      by rewrite (proj2 (Nat.eqb_eq _ _) Heq).
    + apply deref_assign. rewrite Harr. eauto.
    + rewrite length_app. simpl. lia.
  - intros Hlt doc2. split; [|split; [|split; [|split]]].
    + rewrite (proj2 (Nat.ltb_ge _ _)) by lia.
      by rewrite (proj2 (Nat.eqb_neq _ _)) by lia.
    + apply deref_assign. rewrite Harr. eauto.
    + apply length_insert.
    + by apply list_lookup_insert_eq.
    + intros j Hj. by apply list_lookup_insert_ne.
  - intros Hgt. split; [|done].
    by rewrite (proj2 (Nat.ltb_lt _ _)) by lia.
Qed.

(** C7, as the code has it.  [set_value] on a path whose last segment is
    [name[index]], the parent being a mapping: when [name] is present
    and its value is not a list the call raises
    [AssertionError("Cannot set list value for not list item in
    <path>")] (the specification's TypeMismatch); when [name] is absent
    the call raises the [KeyError] of the failed lookup.  In both cases
    the document is left as the resolution of the parent left it. *)
Theorem set_value_indexed_not_list
    (prop_path : string) (new_value : value) (doc doc1 : value) (obj : loc)
    (prop_name name digits : string) (d : gmap string value) :
  _get_parent_obj_prop_name_by_path prop_path doc = (Return (obj, prop_name), doc1) ->
  Re.pattern_match prop_name = Some (name, digits) ->
  deref doc1 obj = Some (VDict d) ->
  (forall v : value, d !! name = Some v -> is_list v = false ->
     set_value prop_path new_value doc
     = (Raise (AssertionError
                 ("Cannot set list value for not list item in " +:+ prop_path)),
        doc1))
  /\ (d !! name = None ->
      set_value prop_path new_value doc = (Raise (KeyError name), doc1)).
Proof.
  intros Hres Hm Hobj. split.
  - intros v Hk Hv. unfold set_value.
    rewrite (bind_Return _ _ _ _ _ Hres). rewrite Hm.
    rewrite (bind_Return _ _ _ _ _ (getitem_dict_Some _ _ _ Hobj _ _ Hk)).
    rewrite (bind_Return _ _ _ _ _ (read_item _ _ _ Hobj _ _ Hk)).
    by destruct v.
  - intros Hk. unfold set_value.
    rewrite (bind_Return _ _ _ _ _ Hres). rewrite Hm.
    by rewrite (bind_Raise _ _ _ _ _ (getitem_dict_None _ _ _ Hobj _ Hk)).
Qed.

(** C5.  [append_value], the parent being a mapping: when the last
    segment is not a key of the parent the call raises the [KeyError] of
    the failed lookup and the key is still absent afterwards; when the
    key holds [old] and [old + value] is [sum], the key holds [sum]
    afterwards and the parent has the same keys as before. *)
Theorem append_value_existing_key_only
    (prop_path : string) (v : value) (doc doc1 : value) (obj : loc)
    (prop_name : string) (d : gmap string value) :
  _get_parent_obj_prop_name_by_path prop_path doc = (Return (obj, prop_name), doc1) ->
  deref doc1 obj = Some (VDict d) ->
  (d !! prop_name = None ->
     append_value prop_path v doc = (Raise (KeyError prop_name), doc1)
     /\ class_of (KeyError prop_name) = CKeyError
     /\ deref doc1 (obj ++ [Key prop_name]) = None)
  /\ (forall old sum : value,
        d !! prop_name = Some old -> py_add old v = Return sum ->
        let doc2 := assign doc1 obj (VDict (<[prop_name := sum]> d)) in
        append_value prop_path v doc = (Return tt, doc2)
        /\ deref doc2 (obj ++ [Key prop_name]) = Some sum
        /\ dom (<[prop_name := sum]> d) = dom d).
Proof.
  intros Hres Hobj. split.
  - intros Hk. split; [|split; [done|]].
    + unfold append_value. rewrite (bind_Return _ _ _ _ _ Hres).
      by rewrite (bind_Raise _ _ _ _ _ (getitem_dict_None _ _ _ Hobj _ Hk)).
    + by rewrite (deref_item _ _ _ Hobj).
  - intros old sum Hk Hadd doc2. split; [|split].
    + unfold append_value. rewrite (bind_Return _ _ _ _ _ Hres).
      rewrite (bind_Return _ _ _ _ _ (getitem_dict_Some _ _ _ Hobj _ _ Hk)).
      rewrite (bind_Return _ _ _ _ _ (read_item _ _ _ Hobj _ _ Hk)).
      rewrite Hadd. unfold lift at 1, bind at 1.
      apply (setitem_dict _ _ _ Hobj).
    + by apply deref_setitem.
    + apply dom_insert_lookup_L. eauto.
Qed.

(** C4, as the code has it.  [delete_property], the parent being a
    mapping after the resolution of the path: a present key is removed
    from the parent; an absent key with [raise_if_missing] raises the
    [KeyError] of the method; an absent key without [raise_if_missing]
    raises nothing.  When the key is absent the document is left as the
    resolution left it, which is the document of before the call for a
    path of one segment, and has the parent chain created otherwise. *)
Theorem delete_property_cases
    (prop_path : string) (raise_if_missing : bool) (doc doc1 : value) (obj : loc)
    (prop_name : string) (d : gmap string value) :
  _get_parent_obj_prop_name_by_path prop_path doc = (Return (obj, prop_name), doc1) ->
  deref doc1 obj = Some (VDict d) ->
  (forall v : value, d !! prop_name = Some v ->
     let doc2 := assign doc1 obj (VDict (delete prop_name d)) in
     delete_property prop_path raise_if_missing doc = (Return tt, doc2)
     /\ deref doc2 (obj ++ [Key prop_name]) = None)
  /\ (d !! prop_name = None ->
      delete_property prop_path raise_if_missing doc
      = (if raise_if_missing
         then Raise (KeyErrorDelete prop_name (VDict d))
         else Return tt, doc1))
  /\ (length (_split_path prop_path) = 1%nat -> doc1 = doc).
Proof.
  intros Hres Hobj. split; [|split].
  - intros v H doc2. split.
    + unfold delete_property. rewrite (bind_Return _ _ _ _ _ Hres).
      rewrite (bind_Return _ _ _ _ _ (contains_dict_Some _ _ _ Hobj _ _ H)).
      apply (pop_dict _ _ _ Hobj _ _ H).
    + assert (Hd : deref (assign doc1 obj (VDict (delete prop_name d))) obj
                 = Some (VDict (delete prop_name d)))
        by (apply deref_assign; rewrite Hobj; eauto).
      rewrite (deref_item _ _ _ Hd). apply lookup_delete_eq.
  - intros Hk. unfold delete_property. rewrite (bind_Return _ _ _ _ _ Hres).
    rewrite (bind_Return _ _ _ _ _ (contains_dict_None _ _ _ Hobj _ Hk)).
    destruct raise_if_missing; [|done].
    by rewrite (bind_Return _ _ _ _ _ (read_run _ _ _ Hobj)).
  - intros Hone. unfold _get_parent_obj_prop_name_by_path in Hres.
    rewrite Hone in Hres. simpl in Hres. unfold ret in Hres. congruence.
Qed.

(** ** Paths of one segment *)

Lemma single_segment_resolve (path : string) (doc : value) :
  length (_split_path path) = 1%nat ->
  _get_parent_obj_prop_name_by_path path doc = (Return (self_obj, path), doc).
Proof.
  intros H. unfold _get_parent_obj_prop_name_by_path. by rewrite H.
Qed.

Lemma deref_root (v : value) : deref v self_obj = Some v.
Proof. done. Qed.

(** C10.  When [_split_path] finds one segment only, the parent is the
    root and the property name is the path as it was given, not the
    unescaped segment: on a root mapping [set_value] writes under that
    very string (or, when the string has the indexed form, into the list
    under its group 1), [append_value] reads and writes under it, and
    [delete_property] looks it up and removes it. *)
Theorem single_segment_raw_key (path : string) :
  length (_split_path path) = 1%nat ->
  (forall doc : value,
     _get_parent_obj_prop_name_by_path path doc = (Return (self_obj, path), doc))
  /\ (forall (d : gmap string value) (v : value),
        Re.pattern_match path = None ->
        set_value path v (VDict d) = (Return tt, VDict (<[path := v]> d)))
  /\ (forall (d : gmap string value) (v : value) (name digits : string)
             (l : list value),
        Re.pattern_match path = Some (name, digits) ->
        d !! name = Some (VList l) ->
        Py.int_of_digits digits = length l ->
        set_value path v (VDict d)
        = (Return tt, VDict (<[name := VList (l ++ [v])]> d)))
  /\ (forall (d : gmap string value) (v old sum : value),
        d !! path = Some old -> py_add old v = Return sum ->
        append_value path v (VDict d) = (Return tt, VDict (<[path := sum]> d)))
  /\ (forall (d : gmap string value) (v : value),
        d !! path = None ->
        append_value path v (VDict d) = (Raise (KeyError path), VDict d))
  /\ (forall (d : gmap string value) (r : bool) (old : value),
        d !! path = Some old ->
        delete_property path r (VDict d) = (Return tt, VDict (delete path d)))
  /\ (forall (d : gmap string value) (r : bool),
        d !! path = None ->
        delete_property path r (VDict d)
        = (if r then Raise (KeyErrorDelete path (VDict d)) else Return tt,
           VDict d)).
Proof.
  intros Hone.
  split; [intros doc; by apply single_segment_resolve|].
  split; [|split; [|split; [|split; [|split]]]].
  - intros d v Hm. unfold set_value.
    rewrite (bind_Return _ _ _ _ _ (single_segment_resolve _ _ Hone)).
    rewrite Hm. apply (setitem_dict _ _ _ (deref_root (VDict d))).
  - intros d v name digits l Hm Hk Hi. unfold set_value.
    rewrite (bind_Return _ _ _ _ _ (single_segment_resolve _ _ Hone)).
    rewrite Hm.
    rewrite (bind_Return _ _ _ _ _
               (getitem_dict_Some _ _ _ (deref_root (VDict d)) _ _ Hk)).
    rewrite (bind_Return _ _ _ _ _
               (read_item _ _ _ (deref_root (VDict d)) _ _ Hk)).
    rewrite Hi, Nat.ltb_irrefl, Nat.eqb_refl.
    unfold write. simpl. by rewrite Hk.
  - intros d v old sum Hk Hadd. unfold append_value.
    rewrite (bind_Return _ _ _ _ _ (single_segment_resolve _ _ Hone)).
    rewrite (bind_Return _ _ _ _ _
               (getitem_dict_Some _ _ _ (deref_root (VDict d)) _ _ Hk)).
    rewrite (bind_Return _ _ _ _ _
               (read_item _ _ _ (deref_root (VDict d)) _ _ Hk)).
    rewrite Hadd. unfold lift at 1, bind at 1.
    apply (setitem_dict _ _ _ (deref_root (VDict d))).
  - intros d v Hk. unfold append_value.
    rewrite (bind_Return _ _ _ _ _ (single_segment_resolve _ _ Hone)).
    by rewrite (bind_Raise _ _ _ _ _
                  (getitem_dict_None _ _ _ (deref_root (VDict d)) _ Hk)).
  - intros d r old Hk. unfold delete_property.
    rewrite (bind_Return _ _ _ _ _ (single_segment_resolve _ _ Hone)).
    rewrite (bind_Return _ _ _ _ _
               (contains_dict_Some _ _ _ (deref_root (VDict d)) _ _ Hk)).
    apply (pop_dict _ _ _ (deref_root (VDict d)) _ _ Hk).
  - intros d r Hk. unfold delete_property.
    rewrite (bind_Return _ _ _ _ _ (single_segment_resolve _ _ Hone)).
    rewrite (bind_Return _ _ _ _ _
               (contains_dict_None _ _ _ (deref_root (VDict d)) _ Hk)).
    destruct r; [|done].
    by rewrite (bind_Return _ _ _ _ _ (read_run _ _ _ (deref_root (VDict d)))).
Qed.

(** C9.  On a document whose key ["list"] holds the list [l],
    [append_value("list", w)] for a list [w] and
    [set_value("list", l + w)] end in the same way with the same
    document: ["list"] holds the concatenation [l ++ w]. *)
Theorem append_value_list_as_set_value
    (d : gmap string value) (l w : list value) :
  d !! "list" = Some (VList l) ->
  append_value "list" (VList w) (VDict d)
  = set_value "list" (VList (l ++ w)) (VDict d)
  /\ set_value "list" (VList (l ++ w)) (VDict d)
     = (Return tt, VDict (<["list" := VList (l ++ w)]> d)).
Proof.
  intros Hk.
  assert (Hone : length (_split_path "list") = 1%nat) by reflexivity.
  assert (Hset : set_value "list" (VList (l ++ w)) (VDict d)
                 = (Return tt, VDict (<["list" := VList (l ++ w)]> d))).
  { unfold set_value.
    rewrite (bind_Return _ _ _ _ _ (single_segment_resolve _ _ Hone)).
    change (Re.pattern_match "list") with (@None (string * string)).
    apply (setitem_dict _ _ _ (deref_root (VDict d))). }
  split; [|done]. rewrite Hset. unfold append_value.
  rewrite (bind_Return _ _ _ _ _ (single_segment_resolve _ _ Hone)).
  rewrite (bind_Return _ _ _ _ _
             (getitem_dict_Some _ _ _ (deref_root (VDict d)) _ _ Hk)).
  rewrite (bind_Return _ _ _ _ _
             (read_item _ _ _ (deref_root (VDict d)) _ _ Hk)).
  simpl py_add. unfold lift at 1, bind at 1.
  apply (setitem_dict _ _ _ (deref_root (VDict d))).
Qed.

(** ** Merging *)

Lemma for_each_setitem (r : loc) (kvs : list (string * value)) :
  forall (doc : value) (d : gmap string value),
    deref doc r = Some (VDict d) ->
    for_each kvs (fun '(key, value) => setitem r key value) doc
    = (Return tt,
       assign doc r (VDict (foldl (fun acc kv => <[kv.1 := kv.2]> acc) d kvs))).
Proof.
  induction kvs as [|[k v] kvs IH]; intros doc d Hr; simpl.
  - unfold ret. by rewrite (assign_same _ _ _ Hr).
  - rewrite (bind_Return _ _ _ _ _ (setitem_dict _ _ _ Hr k v)).
    destruct (deref_setitem _ _ _ Hr k v) as [Hr' _].
    rewrite (IH _ _ Hr'). by rewrite assign_assign.
Qed.

Lemma foldl_insert_union (kvs : list (string * value)) :
  NoDup kvs.*1 ->
  forall d : gmap string value,
    foldl (fun acc kv => <[kv.1 := kv.2]> acc) d kvs = list_to_map kvs ∪ d.
Proof.
  induction kvs as [|[k v] kvs IH]; intros Hnd d.
  - simpl. by rewrite (left_id_L ∅ (∪)).
  - rewrite fmap_cons in Hnd. apply NoDup_cons in Hnd as [Hk Hnd].
    simpl. rewrite (IH Hnd). rewrite <- insert_union_l.
    symmetry. apply insert_union_r. by apply not_elem_of_list_to_map_1.
Qed.

Lemma merge_obj_run (path : string) (props : gmap string value)
    (doc doc1 : value) (obj : loc) (d : gmap string value) :
  _get_object_by_path path doc = (Return obj, doc1) ->
  deref doc1 obj = Some (VDict d) ->
  merge_obj path props doc = (Return tt, assign doc1 obj (VDict (props ∪ d))).
Proof.
  intros Hres Hobj. unfold merge_obj.
  rewrite (bind_Return _ _ _ _ _ Hres).
  rewrite (for_each_setitem _ _ _ _ Hobj).
  rewrite foldl_insert_union by apply NoDup_fst_map_to_list.
  by rewrite list_to_map_to_list.
Qed.

(** C8.  [merge_obj] resolves the whole path with [_get_object_by_path],
    which creates the absent plain segments, the last one included, as
    empty mappings.  When the object reached is the mapping [d], every
    key of [merged_props] then holds in it the value [merged_props]
    gives it, whole, whatever it held before, and every other key holds
    what it held in [d]; nothing else in the document changes.  When the
    last segment is a plain key that its parent does not have, the key
    ends up holding exactly [merged_props]. *)
Theorem merge_obj_shallow
    (path : string) (props : gmap string value)
    (doc doc1 : value) (obj : loc) (d : gmap string value) :
  _get_object_by_path path doc = (Return obj, doc1) ->
  deref doc1 obj = Some (VDict d) ->
  let d' := props ∪ d in
  merge_obj path props doc = (Return tt, assign doc1 obj (VDict d'))
  /\ deref (assign doc1 obj (VDict d')) obj = Some (VDict d')
  /\ (forall (k : string) (v : value), props !! k = Some v -> d' !! k = Some v)
  /\ (forall k : string, props !! k = None -> d' !! k = d !! k)
  /\ (forall (pre : list string) (seg : string) (cur : loc) (doc0 : value)
             (dd : gmap string value),
        _split_path path = pre ++ [seg] ->
        walk path self_obj pre doc = (Return cur, doc0) ->
        deref doc0 cur = Some (VDict dd) ->
        Re.pattern_match seg = None ->
        dd !! seg = None ->
        obj = cur ++ [Key seg]
        /\ d = ∅
        /\ doc1 = assign doc0 cur (VDict (<[seg := VDict ∅]> dd))
        /\ merge_obj path props doc
           = (Return tt, assign doc0 cur (VDict (<[seg := VDict props]> dd)))).
Proof.
  intros Hres Hobj d'.
  assert (Hrun := merge_obj_run path props _ _ _ _ Hres Hobj). fold d' in Hrun.
  split; [done|]. split; [apply deref_assign; rewrite Hobj; eauto|].
  split; [intros k v Hk; by apply lookup_union_Some_l|].
  split; [intros k Hk; by apply lookup_union_r|].
  intros pre seg cur doc0 dd Hsplit Hpre Hcur Hm Hk.
  assert (Hwalk : _get_object_by_path path doc
                  = (Return (cur ++ [Key seg]),
                     assign doc0 cur (VDict (<[seg := VDict ∅]> dd)))).
  { unfold _get_object_by_path. rewrite Hsplit.
    rewrite (walk_through _ _ _ _ _ _ _ Hpre).
    by rewrite (bind_Return _ _ _ _ _
                  (descend_plain_absent path _ _ _ Hcur _ Hm Hk)). }
  rewrite Hres in Hwalk. injection Hwalk as -> ->.
  destruct (deref_setitem _ _ _ Hcur seg (VDict ∅)) as [Ha Hb].
  rewrite Hb in Hobj. injection Hobj as <-.
  split; [done|]. split; [done|]. split; [done|].
  rewrite Hrun. unfold d'. rewrite (right_id_L ∅ (∪)).
  rewrite (assign_app _ _ _ _ _ Ha). simpl.
  rewrite lookup_insert_eq, insert_insert_eq. simpl.
  by rewrite assign_assign.
Qed.

(** ** The scope of a session *)

Section Scope.

Import Session.

Variable yaml_load : string -> option value.
Variable json_dumps : value -> string.
Variable yaml_safe_dump : value -> bool -> string.

(** C1.  For a session opened on [path] whose construction succeeded:
    when the body raises, the [with] statement ends with that exception
    and the files on disk, the source file among them, are what they
    were before the scope opened; when the body ends normally, the
    source file holds the serialization of the document as the body
    left it (JSON when [is_json], YAML with the configured flow style
    otherwise) and the other files are untouched.  [__exit__] alone:
    it writes nothing when it is handed an exception class and writes
    the serialization to [yaml_path] when it is handed [None]. *)
Theorem write_back_only_on_normal_exit
    (path : string) (json flow : bool) (body : M unit) (disk : files)
    (self : patcher) :
  __init__ yaml_load path json flow disk = inl self ->
  (forall (e : exn) (doc' : value),
     body (obj self) = (Raise e, doc') ->
     with_patcher yaml_load json_dumps yaml_safe_dump path json flow body disk
     = (Raised (class_of e), disk))
  /\ (forall doc' : value,
        body (obj self) = (Return tt, doc') ->
        let output :=
          if json then json_dumps doc' else yaml_safe_dump doc' flow in
        with_patcher yaml_load json_dumps yaml_safe_dump path json flow body disk
        = (Normal, <[path := output]> disk)
        /\ (<[path := output]> disk) !! path = Some output
        /\ (forall other : string,
              other <> path -> (<[path := output]> disk) !! other = disk !! other))
  /\ (forall (patch : patcher) (c : exn_class),
        __exit__ json_dumps yaml_safe_dump patch (Raised c) disk = disk)
  /\ (forall patch : patcher,
        __exit__ json_dumps yaml_safe_dump patch Normal disk
        = <[yaml_path patch :=
              if is_json patch then json_dumps (obj patch)
              else yaml_safe_dump (obj patch) (default_flow_style patch)]> disk).
Proof.
  intros Hinit.
  assert (Hself : yaml_path self = path /\ is_json self = json
                  /\ default_flow_style self = flow).
  { unfold __init__ in Hinit. destruct (disk !! path); [|discriminate].
    destruct (yaml_load s); [|discriminate]. by injection Hinit as <-. }
  destruct Hself as (Hp & Hj & Hf).
  split; [|split; [|split]].
  - intros e doc' Hbody. unfold with_patcher. rewrite Hinit.
    unfold __enter__. by rewrite Hbody.
  - intros doc' Hbody output. split; [|split].
    + unfold with_patcher. rewrite Hinit. unfold __enter__. rewrite Hbody.
      simpl. by rewrite Hp, Hj, Hf.
    + apply lookup_insert_eq.
    + intros other Hne. by apply lookup_insert_ne.
  - done.
  - done.
Qed.

End Scope.

(** ** Splitting and unescaping *)



Lemma startswith_other (a c : ascii) (o t : string) :
  Ascii.eqb c a = false -> Py.startswith (String a o) (String c t) = false.
Proof. simpl. rewrite Ascii.eqb_sym. by intros ->. Qed.



Lemma replace_from_without (a : ascii) (o new s : string) :
  without a s = true -> Py.replace_from (String a o) new 0 s = s.
Proof.
  induction s as [|c s IH]; intros H; [done|].
  apply without_cons in H as [Hc Hs].
  cbn [Py.replace_from]. rewrite (startswith_other _ _ _ _ Hc).
  by rewrite (IH Hs).
Qed.




(** * The theorems at work on concrete documents *)

Lemma write_back_only_on_normal_exit_witness :
  Session.with_patcher load0 json0 yaml0 "inputs.yaml" false true
    (set_value "a.b[5]" (VInt 9)) disk0
  = (Raised CAssertionError, disk0)
  /\ Session.with_patcher load0 json0 yaml0 "inputs.yaml" true true
       (set_value "a.b[3]" (VInt 4)) disk0
     = (Normal, <["inputs.yaml" := "{...}"]> disk0).
Proof.
  split.
  - exact (proj1 (write_back_only_on_normal_exit load0 json0 yaml0
                    "inputs.yaml" false true (set_value "a.b[5]" (VInt 9)) disk0
                    (Session.Patcher "inputs.yaml" doc_ab false true) eq_refl)
                 (AssertionError "Cannot set list value for a.b[5]") doc_ab
                 eq_refl).
  - exact (proj1 (proj1 (proj2 (write_back_only_on_normal_exit load0 json0 yaml0
                    "inputs.yaml" true true (set_value "a.b[3]" (VInt 4)) disk0
                    (Session.Patcher "inputs.yaml" doc_ab true true) eq_refl))
                 _ eq_refl)).
Defined.

Lemma set_value_indexed_witness :
  set_value "a.b[3]" (VInt 4) doc_ab
  = (Return tt,
     VDict {[ "a" := VDict {[ "b" := VList [VInt 1; VInt 2; VInt 3; VInt 4] ]} ]})
  /\ set_value "a.b[1]" (VInt 9) doc_ab
     = (Return tt,
        VDict {[ "a" := VDict {[ "b" := VList [VInt 1; VInt 9; VInt 3] ]} ]})
  /\ set_value "a.b[5]" (VInt 9) doc_ab
     = (Raise (AssertionError "Cannot set list value for a.b[5]"), doc_ab).
Proof.
  pose (d := ({[ "b" := VList [VInt 1; VInt 2; VInt 3] ]} : gmap string value)).
  pose (l := [VInt 1; VInt 2; VInt 3]).
  split; [|split].
  - exact (proj1 (proj1 (set_value_indexed "a.b[3]" (VInt 4) doc_ab doc_ab
                           [Key "a"] "b[3]" "b" "3" d l
                           eq_refl eq_refl eq_refl eq_refl) eq_refl)).
  - assert (H : (Py.int_of_digits "1" < length l)%nat) by (vm_compute; lia).
    exact (proj1 (proj1 (proj2 (set_value_indexed "a.b[1]" (VInt 9) doc_ab doc_ab
                           [Key "a"] "b[1]" "b" "1" d l
                           eq_refl eq_refl eq_refl eq_refl)) H)).
  - assert (H : (length l < Py.int_of_digits "5")%nat) by (vm_compute; lia).
    exact (proj1 (proj2 (proj2 (set_value_indexed "a.b[5]" (VInt 9) doc_ab doc_ab
                           [Key "a"] "b[5]" "b" "5" d l
                           eq_refl eq_refl eq_refl eq_refl)) H)).
Defined.

Lemma resolution_segment_witness :
  _get_object_by_path "x.y" (VDict ∅)
  = walk "x.y" [Key "x"] ["y"] (VDict {[ "x" := VDict ∅ ]})
  /\ _get_object_by_path "a.c[0].z" doc_ab
     = (Raise (RuntimeError "illegal path: a.c[0].z"), doc_ab)
  /\ _get_object_by_path "a[0].z" doc_ab
     = (Raise (RuntimeError "illegal path: a[0].z"), doc_ab)
  /\ _get_object_by_path "a.b[3].z" doc_ab = (Raise IndexError, doc_ab).
Proof.
  pose (d := ({[ "b" := VList [VInt 1; VInt 2; VInt 3] ]} : gmap string value)).
  pose (root := ({[ "a" := VDict d ]} : gmap string value)).
  split; [|split; [|split]].
  - exact (proj1 (proj1 (resolution_segment "x.y" [] ["y"] "x"
                           (VDict ∅) (VDict ∅) [] ∅ eq_refl eq_refl eq_refl)
                   eq_refl eq_refl)).
  - exact (proj1 (proj2 (resolution_segment "a.c[0].z" ["a"] ["z"] "c[0]"
                           doc_ab doc_ab [Key "a"] d eq_refl eq_refl eq_refl)
                   "c" "0" eq_refl) eq_refl).
  - exact (proj1 (proj2 (proj2 (resolution_segment "a[0].z" [] ["z"] "a[0]"
                           doc_ab doc_ab [] root eq_refl eq_refl eq_refl)
                   "a" "0" eq_refl)) (VDict d) eq_refl eq_refl).
  - assert (H : (length [VInt 1; VInt 2; VInt 3] <= Py.int_of_digits "3")%nat)
      by (vm_compute; lia).
    exact (proj2 (proj2 (proj2 (resolution_segment "a.b[3].z" ["a"] ["z"] "b[3]"
                           doc_ab doc_ab [Key "a"] d eq_refl eq_refl eq_refl)
                   "b" "3" eq_refl)) _ eq_refl H).
Defined.

Lemma delete_property_cases_witness :
  delete_property "a.b" true doc_ab = (Return tt, VDict {[ "a" := VDict ∅ ]})
  /\ delete_property "a.c" true doc_ab
     = (Raise (KeyErrorDelete "c" (VDict {[ "b" := VList [VInt 1; VInt 2; VInt 3] ]})),
        doc_ab)
  /\ delete_property "a.c" false doc_ab = (Return tt, doc_ab)
  /\ delete_property "missing.key" false (VDict ∅)
     = (Return tt, VDict {[ "missing" := VDict ∅ ]}).
Proof.
  pose (d := ({[ "b" := VList [VInt 1; VInt 2; VInt 3] ]} : gmap string value)).
  split; [|split; [|split]].
  - exact (proj1 (proj1 (delete_property_cases "a.b" true doc_ab doc_ab
                           [Key "a"] "b" d eq_refl eq_refl) _ eq_refl)).
  - exact (proj1 (proj2 (delete_property_cases "a.c" true doc_ab doc_ab
                           [Key "a"] "c" d eq_refl eq_refl)) eq_refl).
  - exact (proj1 (proj2 (delete_property_cases "a.c" false doc_ab doc_ab
                           [Key "a"] "c" d eq_refl eq_refl)) eq_refl).
  - exact (proj1 (proj2 (delete_property_cases "missing.key" false (VDict ∅)
                           (VDict {[ "missing" := VDict ∅ ]})
                           [Key "missing"] "key" ∅ eq_refl eq_refl)) eq_refl).
Defined.

(** C4 as the specification states it fails: on the empty document,
    [delete_property("missing.key", raise_if_missing=False)] raises
    nothing but leaves the document with a key ["missing"] holding an
    empty mapping. *)
Lemma delete_property_missing_parent_is_created :
  fst (delete_property "missing.key" false (VDict ∅)) = Return tt
  /\ snd (delete_property "missing.key" false (VDict ∅)) <> VDict ∅
  /\ deref (snd (delete_property "missing.key" false (VDict ∅))) [Key "missing"]
     = Some (VDict ∅).
Proof.
  split; [reflexivity|]. split; [|reflexivity].
  intros H. discriminate H.
Qed.

Lemma append_value_existing_key_only_witness :
  append_value "a.c" (VList [VInt 7]) doc_ab = (Raise (KeyError "c"), doc_ab)
  /\ append_value "a.b" (VList [VInt 7]) doc_ab
     = (Return tt,
        VDict {[ "a" := VDict {[ "b" := VList [VInt 1; VInt 2; VInt 3; VInt 7] ]} ]})
  /\ append_value "n" (VInt 2) doc_list
     = (Return tt, VDict {[ "list" := VList [VInt 1]; "n" := VInt 7 ]}).
Proof.
  pose (d := ({[ "b" := VList [VInt 1; VInt 2; VInt 3] ]} : gmap string value)).
  pose (root := ({[ "list" := VList [VInt 1]; "n" := VInt 5 ]} : gmap string value)).
  split; [|split].
  - exact (proj1 (proj1 (append_value_existing_key_only "a.c" (VList [VInt 7])
                           doc_ab doc_ab [Key "a"] "c" d eq_refl eq_refl)
                   eq_refl)).
  - exact (proj1 (proj2 (append_value_existing_key_only "a.b" (VList [VInt 7])
                           doc_ab doc_ab [Key "a"] "b" d eq_refl eq_refl)
                   _ _ eq_refl eq_refl)).
  - exact (proj1 (proj2 (append_value_existing_key_only "n" (VInt 2)
                           doc_list doc_list [] "n" root eq_refl eq_refl)
                   _ _ eq_refl eq_refl)).
Defined.

Lemma set_value_indexed_not_list_witness :
  set_value "a[0]" (VInt 1) doc_ab
  = (Raise (AssertionError "Cannot set list value for not list item in a[0]"),
     doc_ab)
  /\ set_value "a.c[0]" (VInt 1) doc_ab = (Raise (KeyError "c"), doc_ab).
Proof.
  pose (d := ({[ "b" := VList [VInt 1; VInt 2; VInt 3] ]} : gmap string value)).
  pose (root := ({[ "a" := VDict d ]} : gmap string value)).
  split.
  - exact (proj1 (set_value_indexed_not_list "a[0]" (VInt 1) doc_ab doc_ab
                    [] "a[0]" "a" "0" root eq_refl eq_refl eq_refl)
                 (VDict d) eq_refl eq_refl).
  - exact (proj2 (set_value_indexed_not_list "a.c[0]" (VInt 1) doc_ab doc_ab
                    [Key "a"] "c[0]" "c" "0" d eq_refl eq_refl eq_refl)
                 eq_refl).
Defined.

(** C7 as the specification states it fails: when the named property is
    absent, [set_value] on an indexed last segment raises a [KeyError],
    which is neither the [AssertionError] of the list check nor a
    [TypeError]. *)
Lemma set_value_indexed_absent_is_KeyError :
  set_value "arr[0]" (VInt 1) (VDict ∅) = (Raise (KeyError "arr"), VDict ∅)
  /\ class_of (KeyError "arr") <> CAssertionError
  /\ class_of (KeyError "arr") <> CTypeError
  /\ (forall msg : string,
        fst (set_value "arr[0]" (VInt 1) (VDict ∅)) <> Raise (AssertionError msg)).
Proof.
  split; [reflexivity|]. split; [discriminate|]. split; [discriminate|].
  intros msg H. discriminate H.
Qed.

Lemma merge_obj_shallow_witness :
  merge_obj "a" {[ "b" := VDict {[ "k" := VInt 1 ]} ]} doc_ab
  = (Return tt, VDict {[ "a" := VDict {[ "b" := VDict {[ "k" := VInt 1 ]} ]} ]})
  /\ merge_obj "x.y" {[ "k" := VInt 1 ]} doc_ab
     = (Return tt,
        VDict {[ "a" := VDict {[ "b" := VList [VInt 1; VInt 2; VInt 3] ]};
                 "x" := VDict {[ "y" := VDict {[ "k" := VInt 1 ]} ]} ]}).
Proof.
  pose (d := ({[ "b" := VList [VInt 1; VInt 2; VInt 3] ]} : gmap string value)).
  split.
  - exact (proj1 (merge_obj_shallow "a" {[ "b" := VDict {[ "k" := VInt 1 ]} ]}
                    doc_ab doc_ab [Key "a"] d eq_refl eq_refl)).
  - pose (doc1 := VDict {[ "a" := VDict d; "x" := VDict {[ "y" := VDict ∅ ]} ]}).
    pose (doc0 := VDict {[ "a" := VDict d; "x" := VDict ∅ ]}).
    exact (proj2 (proj2 (proj2 (proj2 (proj2 (proj2 (proj2
             (merge_obj_shallow "x.y" {[ "k" := VInt 1 ]}
                doc_ab doc1 [Key "x"; Key "y"] ∅ eq_refl eq_refl))))
             ["x"] "y" [Key "x"] doc0 ∅ eq_refl eq_refl eq_refl eq_refl eq_refl)))).
Defined.

Lemma append_value_list_as_set_value_witness :
  append_value "list" (VList [VInt 2]) doc_list
  = set_value "list" (VList [VInt 1; VInt 2]) doc_list.
Proof.
  exact (proj1 (append_value_list_as_set_value
                  {[ "list" := VList [VInt 1]; "n" := VInt 5 ]}
                  [VInt 1] [VInt 2] eq_refl)).
Defined.

Lemma single_segment_raw_key_witness :
  length (_split_path "a\.b") = 1%nat
  /\ _split_path "a\.b" = ["a.b"]
  /\ set_value "a\.b" (VInt 4) (VDict ∅) = (Return tt, VDict {[ "a\.b" := VInt 4 ]})
  /\ append_value "a\.b" (VInt 1) (VDict {[ "a\.b" := VInt 4; "a.b" := VInt 0 ]})
     = (Return tt, VDict {[ "a\.b" := VInt 5; "a.b" := VInt 0 ]})
  /\ delete_property "a\.b" true (VDict {[ "a\.b" := VInt 4; "a.b" := VInt 0 ]})
     = (Return tt, VDict {[ "a.b" := VInt 0 ]}).
Proof.
  destruct (single_segment_raw_key "a\.b" eq_refl)
    as (_ & Hset & _ & Happ & _ & Hdel & _).
  split; [reflexivity|]. split; [reflexivity|]. split; [|split].
  - exact (Hset ∅ (VInt 4) eq_refl).
  - exact (Happ {[ "a\.b" := VInt 4; "a.b" := VInt 0 ]} (VInt 1) (VInt 4) (VInt 5)
             eq_refl eq_refl).
  - exact (Hdel {[ "a\.b" := VInt 4; "a.b" := VInt 0 ]} true (VInt 4) eq_refl).
Defined.

(** * Further properties of the class *)

(** ** What a successful step of the walk was *)

Lemma descend_inv (prop_path seg : string) (cur next : loc) (doc doc' : value) :
  is_Some (deref doc cur) ->
  descend prop_path cur seg doc = (Return next, doc') ->
  exists d : gmap string value,
    deref doc cur = Some (VDict d)
    /\ ((Re.pattern_match seg = None /\ next = cur ++ [Key seg]
         /\ ((exists c : value, d !! seg = Some c /\ doc' = doc)
             \/ (d !! seg = None
                 /\ doc' = assign doc cur (VDict (<[seg := VDict ∅]> d)))))
        \/ (exists (name digits : string) (l : list value),
              Re.pattern_match seg = Some (name, digits)
              /\ d !! name = Some (VList l)
              /\ (Py.int_of_digits digits < length l)%nat
              /\ next = cur ++ [Key name] ++ [Idx (Py.int_of_digits digits)]
              /\ doc' = doc)).
Proof.
  intros [o Ho] H.
  destruct (Re.pattern_match seg) as [[name ds]|] eqn:Hm.
  - assert (Hd : exists d, o = VDict d).
    { unfold descend in H. rewrite Hm in H.
      apply bind_inv in H as (present & doc1 & H1 & H).
      rewrite (contains_run _ _ _ Ho) in H1. injection H1 as H1 <-.
      apply bind_inv in H as ([] & doc2 & H2 & H).
      destruct present; [|discriminate]. injection H2 as <-.
      apply bind_inv in H as (item & doc3 & H3 & H).
      rewrite (getitem_run _ _ _ Ho) in H3.
      destruct o; try discriminate. eauto. }
    destruct Hd as [d ->]. exists d. split; [done|]. right.
    destruct (d !! name) as [v|] eqn:E.
    + destruct (is_list v) eqn:Hv.
      * destruct v; try discriminate.
        rewrite (descend_indexed_list _ _ _ _ Ho _ _ _ _ Hm E) in H.
        case_decide; [|discriminate]. injection H as <- <-.
        exists name, ds, l. done.
      * by rewrite (descend_indexed_not_list _ _ _ _ Ho _ _ _ _ Hm E Hv) in H.
    + by rewrite (descend_indexed_absent _ _ _ _ Ho _ _ _ Hm E) in H.
  - assert (Hd : exists d, o = VDict d).
    { unfold descend in H. rewrite Hm in H.
      apply bind_inv in H as (present & doc1 & H1 & H).
      rewrite (contains_run _ _ _ Ho) in H1. injection H1 as H1 <-.
      apply bind_inv in H as ([] & doc2 & H2 & H).
      destruct o; try discriminate; [| |eauto].
      - destruct present.
        + injection H2 as <-. rewrite (getitem_run _ _ _ Ho) in H. discriminate.
        + rewrite (setitem_run _ _ _ Ho) in H2. discriminate.
      - destruct present.
        + injection H2 as <-. rewrite (getitem_run _ _ _ Ho) in H. discriminate.
        + rewrite (setitem_run _ _ _ Ho) in H2. discriminate. }
    destruct Hd as [d ->]. exists d. split; [done|]. left. split; [done|].
    destruct (d !! seg) as [c|] eqn:E.
    + rewrite (descend_plain_present _ _ _ _ Ho _ _ Hm E) in H.
      injection H as <- <-. split; [done|]. left. eauto.
    + rewrite (descend_plain_absent _ _ _ _ Ho _ Hm E) in H.
      injection H as <- <-. split; [done|]. by right.
Qed.

(** A step only touches the current object and ends below it. *)
Lemma descend_within (prop_path seg : string) (cur next : loc) (doc doc' : value) :
  is_Some (deref doc cur) ->
  descend prop_path cur seg doc = (Return next, doc') ->
  exists (o : value) (suffix : loc),
    doc' = assign doc cur o /\ deref doc' cur = Some o /\ next = cur ++ suffix.
Proof.
  intros Hv H. destruct (descend_inv _ _ _ _ _ _ Hv H) as (d & Hd & Hcase).
  destruct Hcase as [(_ & -> & [(c & _ & ->)|(_ & ->)])
                    |(name & ds & l & _ & _ & _ & -> & ->)].
  - exists (VDict d), [Key seg]. by rewrite (assign_same _ _ _ Hd).
  - exists (VDict (<[seg := VDict ∅]> d)), [Key seg].
    split; [done|]. split; [|done]. apply deref_assign. rewrite Hd. eauto.
  - exists (VDict d), ([Key name] ++ [Idx (Py.int_of_digits ds)]).
    by rewrite (assign_same _ _ _ Hd).
Qed.

Lemma walk_within (prop_path : string) (segments : list string) :
  forall (cur loc' : loc) (doc doc' : value),
    is_Some (deref doc cur) ->
    walk prop_path cur segments doc = (Return loc', doc') ->
    exists (o : value) (suffix : loc),
      doc' = assign doc cur o /\ deref doc' cur = Some o /\ loc' = cur ++ suffix.
Proof.
  induction segments as [|seg rest IH]; intros cur loc' doc doc' Hv H.
  - injection H as <- <-. destruct Hv as [o Ho]. exists o, [].
    by rewrite (assign_same _ _ _ Ho), app_nil_r.
  - simpl in H. apply bind_inv in H as (next & doc1 & H1 & H).
    destruct (descend_within _ _ _ _ _ _ Hv H1) as (o1 & s1 & -> & Ho1 & ->).
    assert (Hnext : is_Some (deref (assign doc cur o1) (cur ++ s1)))
      by (eapply descend_valid; eauto).
    destruct (IH _ _ _ _ Hnext H) as (o2 & s2 & -> & Ho2 & ->).
    rewrite (assign_app _ _ _ _ _ Ho1), assign_assign.
    exists (assign o1 s1 o2), (s1 ++ s2).
    split; [done|]. split; [|by rewrite app_assoc].
    apply deref_assign. eauto.
Qed.

(** ** Walking again *)

Section Again.

Variables (doc : value) (cur : loc) (d : gmap string value).
Hypothesis Hcur : deref doc cur = Some (VDict d).

Lemma descend_again_plain (prop_path seg : string) (c new : value) :
  Re.pattern_match seg = None ->
  d !! seg = Some c ->
  descend prop_path cur seg (assign doc (cur ++ [Key seg]) new)
  = (Return (cur ++ [Key seg]), assign doc (cur ++ [Key seg]) new).
Proof.
  intros Hm Hk. rewrite (assign_app _ _ _ _ _ Hcur). simpl. rewrite Hk. simpl.
  eapply descend_plain_present; [|done|apply lookup_insert_eq].
  apply deref_assign. rewrite Hcur. eauto.
Qed.

Lemma descend_again_indexed (prop_path seg name digits : string)
    (l : list value) (new : value) :
  Re.pattern_match seg = Some (name, digits) ->
  d !! name = Some (VList l) ->
  (Py.int_of_digits digits < length l)%nat ->
  let next := cur ++ [Key name] ++ [Idx (Py.int_of_digits digits)] in
  descend prop_path cur seg (assign doc next new) = (Return next, assign doc next new).
Proof.
  intros Hm Hk Hlt next. unfold next.
  destruct (lookup_lt_is_Some_2 _ _ Hlt) as [c Hc].
  rewrite (assign_app _ _ _ _ _ Hcur). simpl. rewrite Hk. simpl. rewrite Hc.
  simpl.
  erewrite descend_indexed_list;
    [| apply deref_assign; rewrite Hcur; eauto | done | apply lookup_insert_eq].
  rewrite length_insert. by rewrite decide_True.
Qed.

End Again.

Lemma descend_again (prop_path seg : string) (cur next : loc) (doc doc' : value) :
  is_Some (deref doc cur) ->
  descend prop_path cur seg doc = (Return next, doc') ->
  forall (prop_path' : string) (new : value),
    descend prop_path' cur seg (assign doc' next new)
    = (Return next, assign doc' next new).
Proof.
  intros Hv H pp' new. destruct (descend_inv _ _ _ _ _ _ Hv H) as (d & Hd & Hcase).
  destruct Hcase as [(Hm & -> & [(c & Hk & ->)|(Hk & ->)])
                    |(name & ds & l & Hm & Hk & Hlt & -> & ->)].
  - by eapply descend_again_plain.
  - eapply descend_again_plain; [|done|apply lookup_insert_eq].
    apply deref_assign. rewrite Hd. eauto.
  - by eapply descend_again_indexed.
Qed.

(** Once a walk has succeeded, the same walk on the resulting document,
    or on that document with the object reached mutated in any way,
    reaches the same object and changes nothing. *)
Lemma walk_again (prop_path : string) (segments : list string) :
  forall (cur loc' : loc) (doc doc1 : value),
    is_Some (deref doc cur) ->
    walk prop_path cur segments doc = (Return loc', doc1) ->
    forall (prop_path' : string) (new : value),
      walk prop_path' cur segments (assign doc1 loc' new)
      = (Return loc', assign doc1 loc' new).
Proof.
  induction segments as [|seg rest IH]; intros cur loc' doc doc1 Hv H pp' new.
  - by injection H as <- <-.
  - simpl in H. apply bind_inv in H as (next & doc' & H1 & H).
    assert (Hnext : is_Some (deref doc' next)) by (eapply descend_valid; eauto).
    destruct (walk_within _ _ _ _ _ _ Hnext H) as (o2 & s2 & E & Ho2 & ->).
    assert (E' : assign doc1 (next ++ s2) new = assign doc' next (assign o2 s2 new)).
    { rewrite (assign_app _ _ _ _ _ Ho2). rewrite E. apply assign_assign. }
    simpl. rewrite (bind_Return _ _ _ _ _
                      (eq_trans (f_equal _ E')
                         (eq_trans (descend_again _ _ _ _ _ _ Hv H1 pp' _)
                                   (f_equal _ (eq_sym E'))))).
    by apply (IH _ _ _ _ Hnext H).
Qed.

Lemma walk_again_same (prop_path : string) (segments : list string)
    (cur loc' : loc) (doc doc1 : value) :
  is_Some (deref doc cur) ->
  walk prop_path cur segments doc = (Return loc', doc1) ->
  forall prop_path' : string,
    walk prop_path' cur segments doc1 = (Return loc', doc1).
Proof.
  intros Hv H pp'.
  destruct (walk_valid _ _ _ _ _ _ Hv H) as [o Ho].
  pose proof (walk_again _ _ _ _ _ _ Hv H pp' o) as Hw.
  by rewrite (assign_same _ _ _ Ho) in Hw.
Qed.

Lemma _get_object_by_path_again (path : string) (doc doc1 : value) (obj : loc) :
  _get_object_by_path path doc = (Return obj, doc1) ->
  forall new : value,
    _get_object_by_path path (assign doc1 obj new)
    = (Return obj, assign doc1 obj new).
Proof.
  intros H new. unfold _get_object_by_path in *.
  eapply walk_again; [|exact H]. simpl. eauto.
Qed.

Lemma resolve_again (path name : string) (doc doc1 : value) (obj : loc) :
  _get_parent_obj_prop_name_by_path path doc = (Return (obj, name), doc1) ->
  forall new : value,
    _get_parent_obj_prop_name_by_path path (assign doc1 obj new)
    = (Return (obj, name), assign doc1 obj new).
Proof.
  unfold _get_parent_obj_prop_name_by_path.
  destruct (length (_split_path path) =? 1)%nat.
  - intros [= <- <- <-] new. done.
  - intros H new. apply bind_inv in H as (p & doc' & H1 & H).
    injection H as <- <- <-.
    by rewrite (bind_Return _ _ _ _ _ (_get_object_by_path_again _ _ _ _ H1 new)).
Qed.

(** ** The operations once the parent is resolved to a mapping *)

Section Resolved.

Variables (path : string) (doc doc1 : value) (obj : loc) (pname : string)
          (d : gmap string value).
Hypothesis Hres :
  _get_parent_obj_prop_name_by_path path doc = (Return (obj, pname), doc1).
Hypothesis Hobj : deref doc1 obj = Some (VDict d).

Lemma resolved_after (d' : gmap string value) :
  _get_parent_obj_prop_name_by_path path (assign doc1 obj (VDict d'))
  = (Return (obj, pname), assign doc1 obj (VDict d'))
  /\ deref (assign doc1 obj (VDict d')) obj = Some (VDict d').
Proof.
  split; [apply (resolve_again _ _ _ _ _ Hres)|].
  apply deref_assign. rewrite Hobj. eauto.
Qed.

Lemma set_value_run_plain (v : value) :
  Re.pattern_match pname = None ->
  set_value path v doc = (Return tt, assign doc1 obj (VDict (<[pname := v]> d))).
Proof.
  intros Hm. unfold set_value. rewrite (bind_Return _ _ _ _ _ Hres). rewrite Hm.
  apply (setitem_dict _ _ _ Hobj).
Qed.

Lemma assign_item (k : string) (old new : value) :
  d !! k = Some old ->
  assign doc1 (obj ++ [Key k]) new = assign doc1 obj (VDict (<[k := new]> d)).
Proof.
  intros Hk. rewrite (assign_app _ _ _ _ _ Hobj). simpl. by rewrite Hk.
Qed.

Lemma set_value_run_indexed (v : value) (name digits : string) (l : list value) :
  Re.pattern_match pname = Some (name, digits) ->
  d !! name = Some (VList l) ->
  let index := Py.int_of_digits digits in
  set_value path v doc
  = if (length l <? index)%nat
    then (Raise (AssertionError ("Cannot set list value for " +:+ path)), doc1)
    else (Return tt,
          assign doc1 obj
            (VDict (<[name := VList (if (index =? length l)%nat
                                     then l ++ [v]
                                     else <[index := v]> l)]> d))).
Proof.
  intros Hm Hk index. unfold set_value.
  rewrite (bind_Return _ _ _ _ _ Hres). rewrite Hm.
  rewrite (bind_Return _ _ _ _ _ (getitem_dict_Some _ _ _ Hobj _ _ Hk)).
  rewrite (bind_Return _ _ _ _ _ (read_item _ _ _ Hobj _ _ Hk)).
  fold index. destruct (length l <? index)%nat; [done|].
  unfold write. destruct (index =? length l)%nat; by rewrite (assign_item _ _ _ Hk).
Qed.

Lemma append_value_run (v old : value) :
  d !! pname = Some old ->
  append_value path v doc
  = match py_add old v with
    | Return sum => (Return tt, assign doc1 obj (VDict (<[pname := sum]> d)))
    | Raise e => (Raise e, doc1)
    end.
Proof.
  intros Hk. unfold append_value. rewrite (bind_Return _ _ _ _ _ Hres).
  rewrite (bind_Return _ _ _ _ _ (getitem_dict_Some _ _ _ Hobj _ _ Hk)).
  rewrite (bind_Return _ _ _ _ _ (read_item _ _ _ Hobj _ _ Hk)).
  destruct (py_add old v) as [sum|e]; [|done].
  unfold lift at 1, bind at 1. apply (setitem_dict _ _ _ Hobj).
Qed.

Lemma delete_property_run (r : bool) :
  delete_property path r doc
  = match d !! pname with
    | Some _ => (Return tt, assign doc1 obj (VDict (delete pname d)))
    | None =>
        (if r then Raise (KeyErrorDelete pname (VDict d)) else Return tt, doc1)
    end.
Proof.
  unfold delete_property. rewrite (bind_Return _ _ _ _ _ Hres).
  destruct (d !! pname) as [v|] eqn:Hk.
  - rewrite (bind_Return _ _ _ _ _ (contains_dict_Some _ _ _ Hobj _ _ Hk)).
    apply (pop_dict _ _ _ Hobj _ _ Hk).
  - rewrite (bind_Return _ _ _ _ _ (contains_dict_None _ _ _ Hobj _ Hk)).
    destruct r; [|done].
    by rewrite (bind_Return _ _ _ _ _ (read_run _ _ _ Hobj)).
Qed.

End Resolved.

(** ** Setting a plain key *)

(** X8.  [set_value] on a path whose last segment is a plain key, the
    parent being a mapping: the key holds the new value afterwards,
    whether it existed or not, and every other key of the parent holds
    what it held. *)
Theorem set_value_plain_key
    (path : string) (v : value) (doc doc1 : value) (obj : loc) (pname : string)
    (d : gmap string value) :
  _get_parent_obj_prop_name_by_path path doc = (Return (obj, pname), doc1) ->
  Re.pattern_match pname = None ->
  deref doc1 obj = Some (VDict d) ->
  exists doc2 : value,
    set_value path v doc = (Return tt, doc2)
    /\ deref doc2 (obj ++ [Key pname]) = Some v
    /\ (forall k : string,
          k <> pname -> deref doc2 (obj ++ [Key k]) = deref doc1 (obj ++ [Key k])).
Proof.
  intros Hres Hm Hobj. eexists. split; [by eapply set_value_run_plain|].
  destruct (resolved_after _ _ _ _ _ d Hres Hobj (<[pname := v]> d)) as [_ Hd].
  split.
  - rewrite (deref_item _ _ _ Hd). apply lookup_insert_eq.
  - intros k Hk. rewrite (deref_item _ _ _ Hd), (deref_item _ _ _ Hobj).
    by apply lookup_insert_ne.
Qed.

Lemma set_value_inv (path : string) (v : value) (doc doc2 : value) :
  set_value path v doc = (Return tt, doc2) ->
  exists (obj : loc) (pname : string) (doc1 : value) (d : gmap string value),
    _get_parent_obj_prop_name_by_path path doc = (Return (obj, pname), doc1)
    /\ deref doc1 obj = Some (VDict d)
    /\ (Re.pattern_match pname = None
        \/ exists (name digits : string) (l : list value),
             Re.pattern_match pname = Some (name, digits)
             /\ d !! name = Some (VList l)
             /\ (Py.int_of_digits digits <= length l)%nat).
Proof.
  intros H. unfold set_value in H.
  apply bind_inv in H as ([obj pname] & doc1 & Hres & H).
  destruct (_get_parent_obj_prop_name_by_path_valid _ _ _ _ _ Hres) as [o Ho].
  exists obj, pname, doc1.
  destruct (Re.pattern_match pname) as [[name ds]|] eqn:Hm.
  - apply bind_inv in H as (item & doc' & H1 & H).
    rewrite (getitem_run _ _ _ Ho) in H1.
    destruct o; try discriminate. simpl in H1.
    destruct (d !! name) as [x|] eqn:Hk; [|discriminate].
    injection H1 as <- <-. exists d. split; [done|]. split; [done|]. right.
    rewrite (bind_Return _ _ _ _ _ (read_item _ _ _ Ho _ _ Hk)) in H.
    destruct x; try discriminate.
    destruct (length l <? Py.int_of_digits ds)%nat eqn:E; [discriminate|].
    apply Nat.ltb_ge in E. exists name, ds, l. done.
  - rewrite (setitem_run _ _ _ Ho) in H.
    destruct o; try discriminate. exists d. split; [done|]. split; [done|].
    by left.
Qed.

(** X9.  Two [set_value] calls on the same path: when the first one
    succeeds, the second behaves as if the first had never been made
    (on a list index equal to the length the first call appends and the
    second overwrites what was appended). *)
Theorem set_value_last_write_wins
    (path : string) (v1 v2 : value) (doc doc2 : value) :
  set_value path v1 doc = (Return tt, doc2) ->
  set_value path v2 doc2 = set_value path v2 doc.
Proof.
  intros H.
  destruct (set_value_inv _ _ _ _ H) as (obj & pname & doc1 & d & Hres & Hobj & Hc).
  destruct Hc as [Hm|(name & ds & l & Hm & Hk & Hle)].
  - rewrite (set_value_run_plain _ _ _ _ _ _ Hres Hobj _ Hm) in H.
    injection H as <-.
    destruct (resolved_after _ _ _ _ _ d Hres Hobj (<[pname := v1]> d))
      as [Hres2 Hobj2].
    rewrite (set_value_run_plain _ _ _ _ _ _ Hres2 Hobj2 _ Hm).
    rewrite (set_value_run_plain _ _ _ _ _ _ Hres Hobj _ Hm).
    by rewrite assign_assign, insert_insert_eq.
  - rewrite (set_value_run_indexed _ _ _ _ _ _ Hres Hobj _ _ _ _ Hm Hk) in H.
    rewrite (set_value_run_indexed _ _ _ _ _ _ Hres Hobj _ _ _ _ Hm Hk).
    rewrite (proj2 (Nat.ltb_ge _ _) Hle) in *. injection H as <-.
    set (l1 := if (Py.int_of_digits ds =? length l)%nat
               then l ++ [v1] else <[Py.int_of_digits ds := v1]> l).
    destruct (resolved_after _ _ _ _ _ d Hres Hobj (<[name := VList l1]> d))
      as [Hres2 Hobj2].
    rewrite (set_value_run_indexed _ _ _ _ _ _ Hres2 Hobj2 _ _ _ l1 Hm)
      by apply lookup_insert_eq.
    rewrite assign_assign, insert_insert_eq. unfold l1.
    destruct (Py.int_of_digits ds =? length l)%nat eqn:E.
    + apply Nat.eqb_eq in E. rewrite length_app. simpl.
      rewrite (proj2 (Nat.ltb_ge _ _)) by lia.
      rewrite (proj2 (Nat.eqb_neq _ _)) by lia.
      rewrite E, insert_app_r_alt by lia. by rewrite Nat.sub_diag.
    + rewrite length_insert, (proj2 (Nat.ltb_ge _ _) Hle), E.
      by rewrite list_insert_insert_eq.
Qed.

(** ** Operations one after the other *)

(** X10.  [set_value] then [delete_property] on the same path, the last
    segment being a plain key and the parent a mapping: together they
    leave the parent without the key; when the key was absent to begin
    with, the document is back to what the resolution of the path had
    made of it. *)
Theorem set_value_then_delete_property
    (path : string) (v : value) (r : bool) (doc doc1 : value) (obj : loc)
    (pname : string) (d : gmap string value) :
  _get_parent_obj_prop_name_by_path path doc = (Return (obj, pname), doc1) ->
  Re.pattern_match pname = None ->
  deref doc1 obj = Some (VDict d) ->
  (let* _ := set_value path v in delete_property path r) doc
  = (Return tt, assign doc1 obj (VDict (delete pname d)))
  /\ (d !! pname = None -> assign doc1 obj (VDict (delete pname d)) = doc1).
Proof.
  intros Hres Hm Hobj. split.
  - rewrite (bind_Return _ _ _ _ _ (set_value_run_plain _ _ _ _ _ _ Hres Hobj v Hm)).
    destruct (resolved_after _ _ _ _ _ d Hres Hobj (<[pname := v]> d))
      as [Hres2 Hobj2].
    rewrite (delete_property_run _ _ _ _ _ _ Hres2 Hobj2).
    rewrite lookup_insert_eq, assign_assign. by rewrite delete_insert_eq.
  - intros Hk. rewrite delete_id by done. by apply assign_same.
Qed.

(** X11.  [delete_property] twice on the same path, the parent being a
    mapping: a second call with [raise_if_missing=False] adds nothing to
    the first, and a second call with [raise_if_missing=True] after a
    call that returned raises the [KeyError] of the method. *)
Theorem delete_property_twice
    (path : string) (r : bool) (doc doc1 : value) (obj : loc)
    (pname : string) (d : gmap string value) :
  _get_parent_obj_prop_name_by_path path doc = (Return (obj, pname), doc1) ->
  deref doc1 obj = Some (VDict d) ->
  (let* _ := delete_property path r in delete_property path false) doc
  = delete_property path r doc
  /\ (forall doc2 : value,
        delete_property path r doc = (Return tt, doc2) ->
        delete_property path true doc2
        = (Raise (KeyErrorDelete pname (VDict (delete pname d))), doc2)).
Proof.
  intros Hres Hobj.
  rewrite (delete_property_run _ _ _ _ _ _ Hres Hobj).
  destruct (resolved_after _ _ _ _ _ d Hres Hobj (delete pname d))
    as [Hres2 Hobj2].
  pose proof (resolved_after _ _ _ _ _ d Hres Hobj d) as [Hres1 Hobj1].
  rewrite (assign_same _ _ _ Hobj) in Hres1, Hobj1.
  destruct (d !! pname) as [x|] eqn:Hk.
  - split.
    + unfold bind at 1. rewrite (delete_property_run _ _ _ _ _ _ Hres Hobj), Hk.
      rewrite (delete_property_run _ _ _ _ _ _ Hres2 Hobj2).
      by rewrite lookup_delete_eq.
    + intros doc2 [= <-].
      rewrite (delete_property_run _ _ _ _ _ _ Hres2 Hobj2).
      by rewrite lookup_delete_eq.
  - split.
    + unfold bind at 1. rewrite (delete_property_run _ _ _ _ _ _ Hres Hobj), Hk.
      destruct r; [done|].
      by rewrite (delete_property_run _ _ _ _ _ _ Hres1 Hobj1), Hk.
    + intros doc2 H. destruct r; [discriminate|]. injection H as <-.
      rewrite (delete_property_run _ _ _ _ _ _ Hres1 Hobj1), Hk.
      by rewrite delete_id.
Qed.

Lemma append_assoc (s t u : string) : (s +:+ t) +:+ u = s +:+ t +:+ u.
Proof.
  induction s as [|c s IH]; [done|]. by rewrite !append_cons, IH.
Qed.

Lemma py_add_int (a b : value) (x y : Z) :
  as_int a = Some x -> as_int b = Some y -> py_add a b = Return (VInt (x + y)).
Proof.
  destruct a, b; simpl; try discriminate; intros [= <-] [= <-]; done.
Qed.

Lemma append_value_twice_run
    (path : string) (v1 v2 v12 old s1 s2 : value) (doc doc1 : value) (obj : loc)
    (pname : string) (d : gmap string value) :
  _get_parent_obj_prop_name_by_path path doc = (Return (obj, pname), doc1) ->
  deref doc1 obj = Some (VDict d) ->
  d !! pname = Some old ->
  py_add old v1 = Return s1 ->
  py_add s1 v2 = Return s2 ->
  py_add old v12 = Return s2 ->
  (let* _ := append_value path v1 in append_value path v2) doc
  = append_value path v12 doc.
Proof.
  intros Hres Hobj Hk H1 H2 H12.
  rewrite (append_value_run _ _ _ _ _ _ Hres Hobj v12 _ Hk), H12.
  unfold bind at 1. rewrite (append_value_run _ _ _ _ _ _ Hres Hobj v1 _ Hk), H1.
  destruct (resolved_after _ _ _ _ _ d Hres Hobj (<[pname := s1]> d))
    as [Hres2 Hobj2].
  rewrite (append_value_run _ _ _ _ _ _ Hres2 Hobj2 v2 s1)
    by apply lookup_insert_eq.
  rewrite H2. by rewrite assign_assign, insert_insert_eq.
Qed.

(** X12.  [append_value] twice on the same path, the parent being a
    mapping: on a key that holds a list, appending the list [w1] and
    then the list [w2] amounts to appending their concatenation once;
    on a key that holds a string, appending two strings amounts to
    appending their concatenation once; on a key that holds an integer
    (a [bool] counts as one), adding two integers amounts to adding
    their sum once. *)
Theorem append_value_twice
    (path : string) (doc doc1 : value) (obj : loc)
    (pname : string) (d : gmap string value) :
  _get_parent_obj_prop_name_by_path path doc = (Return (obj, pname), doc1) ->
  deref doc1 obj = Some (VDict d) ->
  (forall l w1 w2 : list value,
     d !! pname = Some (VList l) ->
     (let* _ := append_value path (VList w1) in
      append_value path (VList w2)) doc
     = append_value path (VList (w1 ++ w2)) doc)
  /\ (forall s t1 t2 : string,
        d !! pname = Some (VStr s) ->
        (let* _ := append_value path (VStr t1) in
         append_value path (VStr t2)) doc
        = append_value path (VStr (t1 +:+ t2)) doc)
  /\ (forall (old v1 v2 : value) (x n1 n2 : Z),
        d !! pname = Some old ->
        as_int old = Some x -> as_int v1 = Some n1 -> as_int v2 = Some n2 ->
        (let* _ := append_value path v1 in append_value path v2) doc
        = append_value path (VInt (n1 + n2)) doc).
Proof.
  intros Hres Hobj. split; [|split].
  - intros l w1 w2 Hk.
    eapply (append_value_twice_run _ _ _ _ _ (VList (l ++ w1))
              (VList (l ++ w1 ++ w2))); try done.
    simpl. by rewrite app_assoc.
  - intros s t1 t2 Hk.
    eapply (append_value_twice_run _ _ _ _ _ (VStr (s +:+ t1))
              (VStr (s +:+ t1 +:+ t2))); try done.
    simpl. by rewrite append_assoc.
  - intros old v1 v2 x n1 n2 Hk Hx H1 H2.
    eapply (append_value_twice_run _ _ _ _ _ (VInt (x + n1))
              (VInt (x + (n1 + n2)))); try done.
    + by apply py_add_int.
    + rewrite (py_add_int (VInt (x + n1)) v2 (x + n1) n2) by done.
      do 2 f_equal. lia.
    + by apply py_add_int.
Qed.

(** X13.  [merge_obj] twice at the same path, the object reached being a
    mapping: merging [first] and then [second] is merging once the
    mapping that has the entries of [second] and, for the other keys,
    those of [first]; in particular merging the same properties a
    second time changes nothing. *)
Theorem merge_obj_twice
    (path : string) (first second : gmap string value)
    (doc doc1 : value) (obj : loc) (d : gmap string value) :
  _get_object_by_path path doc = (Return obj, doc1) ->
  deref doc1 obj = Some (VDict d) ->
  (let* _ := merge_obj path first in merge_obj path second) doc
  = merge_obj path (second ∪ first) doc
  /\ (let* _ := merge_obj path first in merge_obj path first) doc
     = merge_obj path first doc.
Proof.
  intros Hres Hobj.
  assert (Hseq : forall q : gmap string value,
            (let* _ := merge_obj path first in merge_obj path q) doc
            = (Return tt, assign doc1 obj (VDict (q ∪ first ∪ d)))).
  { intros q.
    rewrite (bind_Return _ _ _ _ _ (merge_obj_run _ first _ _ _ _ Hres Hobj)).
    assert (Hobj2 : deref (assign doc1 obj (VDict (first ∪ d))) obj
                    = Some (VDict (first ∪ d)))
      by (apply deref_assign; rewrite Hobj; eauto).
    rewrite (merge_obj_run _ q _ _ _ _
               (_get_object_by_path_again _ _ _ _ Hres _) Hobj2).
    by rewrite assign_assign, (assoc_L (∪)). }
  split.
  - by rewrite Hseq, (merge_obj_run _ _ _ _ _ _ Hres Hobj).
  - rewrite Hseq, (merge_obj_run _ _ _ _ _ _ Hres Hobj).
    by rewrite (idemp_L (∪)).
Qed.

(** [merge_obj] with no properties to merge still resolves the
    path: it ends as [_get_object_by_path] ends, with the document that
    [_get_object_by_path] leaves, absent plain segments created. *)
Lemma merge_obj_nothing (path : string) (doc : value) :
  merge_obj path ∅ doc
  = match _get_object_by_path path doc with
    | (Return _, doc1) => (Return tt, doc1)
    | (Raise e, doc1) => (Raise e, doc1)
    end.
Proof.
  unfold merge_obj, bind. rewrite map_to_list_empty.
  by destruct (_get_object_by_path path doc) as [[obj|e] doc1].
Qed.

(** ** Resolving what is there *)

(** A step that raises has changed nothing. *)
Lemma descend_raise (prop_path seg : string) (cur : loc) (doc doc' : value)
    (e : exn) :
  is_Some (deref doc cur) ->
  descend prop_path cur seg doc = (Raise e, doc') ->
  doc' = doc.
Proof.
  intros [o Ho] H. unfold descend in H.
  destruct (Re.pattern_match seg) as [[name ds]|] eqn:Hm.
  - unfold bind at 1 in H. rewrite (contains_run _ _ _ Ho) in H.
    destruct (py_in name o) as [[]|e0] eqn:Hin; [| |congruence].
    + unfold ret at 1, bind at 1 in H. unfold bind at 1 in H.
      rewrite (getitem_run _ _ _ Ho) in H.
      destruct (py_getitem o name) as [x|e1] eqn:Hg; [|congruence].
      unfold bind at 1, read at 1 in H.
      destruct (is_list (obj_at doc (cur ++ [Key name]))) eqn:Hl.
      * unfold ret at 1, bind at 1 in H. unfold list_getitem, bind, read in H.
        destruct (obj_at doc (cur ++ [Key name])); try done.
        destruct (l !! Py.int_of_digits ds); unfold ret, raise in H; congruence.
      * unfold _raise_illegal, raise, bind in H. congruence.
    + unfold _raise_illegal, raise, bind in H. congruence.
  - unfold bind at 1 in H. rewrite (contains_run _ _ _ Ho) in H.
    destruct (py_in seg o) as [[]|e0] eqn:Hin; [| |congruence].
    + unfold ret at 1, bind at 1 in H. rewrite (getitem_run _ _ _ Ho) in H.
      destruct (py_getitem o seg); congruence.
    + unfold bind at 1 in H. rewrite (setitem_run _ _ _ Ho) in H.
      destruct o; simpl in H; try congruence.
      destruct (deref_setitem _ _ _ Ho seg (VDict ∅)) as [Ha _].
      rewrite (getitem_dict_Some _ _ _ Ha seg (VDict ∅)) in H
        by apply lookup_insert_eq.
      discriminate.
Qed.

(** A walk, however it ends, only touches the object it starts from. *)
Lemma walk_within_any (prop_path : string) (segments : list string) :
  forall (cur : loc) (doc doc' : value) (out : outcome loc),
    is_Some (deref doc cur) ->
    walk prop_path cur segments doc = (out, doc') ->
    exists o : value, doc' = assign doc cur o /\ deref doc' cur = Some o.
Proof.
  induction segments as [|seg rest IH]; intros cur doc doc' out Hv H.
  - injection H as _ <-. destruct Hv as [o Ho]. exists o.
    by rewrite (assign_same _ _ _ Ho).
  - simpl in H. unfold bind in H.
    destruct (descend prop_path cur seg doc) as [[next|e] doc1] eqn:E.
    + destruct (descend_within _ _ _ _ _ _ Hv E) as (o1 & s1 & -> & Ho1 & ->).
      assert (Hnext : is_Some (deref (assign doc cur o1) (cur ++ s1)))
        by (eapply descend_valid; eauto).
      destruct (IH _ _ _ _ Hnext H) as (o2 & -> & Ho2).
      rewrite (assign_app _ _ _ _ _ Ho1), assign_assign.
      exists (assign o1 s1 o2). split; [done|]. apply deref_assign. eauto.
    + injection H as _ <-. rewrite (descend_raise _ _ _ _ _ _ Hv E).
      destruct Hv as [o Ho]. exists o. by rewrite (assign_same _ _ _ Ho).
Qed.

(** A walk that raised raises in the same way, and changes nothing, when
    it is repeated on the document it left. *)
Lemma walk_again_raise (prop_path : string) (segments : list string) :
  forall (cur : loc) (doc doc1 : value) (e : exn),
    is_Some (deref doc cur) ->
    walk prop_path cur segments doc = (Raise e, doc1) ->
    walk prop_path cur segments doc1 = (Raise e, doc1).
Proof.
  induction segments as [|seg rest IH]; intros cur doc doc1 e Hv H.
  - discriminate.
  - simpl in H. unfold bind in H.
    destruct (descend prop_path cur seg doc) as [[next|e'] doc'] eqn:E.
    + assert (Hnext : is_Some (deref doc' next)) by (eapply descend_valid; eauto).
      destruct (walk_within_any _ _ _ _ _ _ Hnext H) as (o & E1 & _).
      pose proof (descend_again _ _ _ _ _ _ Hv E prop_path o) as Hd.
      rewrite <- E1 in Hd. simpl. rewrite (bind_Return _ _ _ _ _ Hd).
      by apply (IH _ _ _ _ Hnext H).
    + injection H as <- <-.
      assert (doc' = doc) as -> by (by eapply descend_raise).
      simpl. by rewrite (bind_Raise _ _ _ _ _ E).
Qed.

(** X6.  Resolving a path twice is resolving it once: on the document
    that a first resolution has left, a second resolution of the same
    path finds the object the first one found, or raises the exception
    the first one raised, and changes nothing. *)
Theorem _get_object_by_path_twice
    (path : string) (doc doc1 : value) (out : outcome loc) :
  _get_object_by_path path doc = (out, doc1) ->
  _get_object_by_path path doc1 = (out, doc1)
  /\ (let* _ := _get_object_by_path path in _get_object_by_path path) doc
     = _get_object_by_path path doc.
Proof.
  intros H.
  assert (Hroot : is_Some (deref doc self_obj)) by (simpl; eauto).
  assert (H2 : _get_object_by_path path doc1 = (out, doc1)).
  { unfold _get_object_by_path in *. destruct out as [obj|e].
    - by eapply walk_again_same.
    - by eapply walk_again_raise. }
  split; [done|]. unfold bind. rewrite H. by destruct out.
Qed.

(** X5.  A segment that is there is followed without touching the
    document: from a mapping, a plain key that the mapping has leads to
    its value, and an indexed segment [name[index]] whose [name] holds a
    list with more than [index] elements leads to the element at
    [index]; resolution goes on from there. *)
Theorem resolution_follows_present_segment
    (prop_path : string) (pre post : list string) (seg : string)
    (doc doc1 : value) (cur : loc) (d : gmap string value) :
  _split_path prop_path = pre ++ seg :: post ->
  walk prop_path self_obj pre doc = (Return cur, doc1) ->
  deref doc1 cur = Some (VDict d) ->
  (forall child : value,
     Re.pattern_match seg = None -> d !! seg = Some child ->
     _get_object_by_path prop_path doc = walk prop_path (cur ++ [Key seg]) post doc1
     /\ deref doc1 (cur ++ [Key seg]) = Some child)
  /\ (forall (name digits : string) (l : list value) (elem : value),
        Re.pattern_match seg = Some (name, digits) ->
        d !! name = Some (VList l) ->
        l !! Py.int_of_digits digits = Some elem ->
        let next := cur ++ [Key name] ++ [Idx (Py.int_of_digits digits)] in
        _get_object_by_path prop_path doc = walk prop_path next post doc1
        /\ deref doc1 next = Some elem).
Proof.
  intros Hsplit Hpre Hcur. unfold _get_object_by_path. rewrite Hsplit.
  rewrite (walk_through _ _ _ _ _ _ _ Hpre). split.
  - intros child Hm Hk.
    rewrite (bind_Return _ _ _ _ _ (descend_plain_present _ _ _ _ Hcur _ _ Hm Hk)).
    split; [done|]. by rewrite (deref_item _ _ _ Hcur).
  - intros name ds l elem Hm Hk He.
    assert (H := descend_indexed_list prop_path _ _ _ Hcur _ _ _ _ Hm Hk).
    rewrite decide_True in H by (by eapply lookup_lt_Some).
    rewrite (bind_Return _ _ _ _ _ H). split; [done|].
    rewrite app_assoc.
    erewrite deref_idx; [done|]. by rewrite (deref_item _ _ _ Hcur).
Qed.

(** ** Objects that are not mappings *)

Section NotADict.

Variables (doc : value) (r : loc) (o : value).
Hypothesis Hr : deref doc r = Some o.
Hypothesis Ho : is_dict o = false.

Lemma getitem_not_dict (k : string) : getitem r k doc = (Raise TypeError, doc).
Proof. rewrite (getitem_run _ _ _ Hr). by destruct o. Qed.

Lemma setitem_not_dict (k : string) (v : value) :
  setitem r k v doc = (Raise TypeError, doc).
Proof. rewrite (setitem_run _ _ _ Hr). by destruct o. Qed.

Lemma pop_not_dict (k : string) : exists e : exn, pop r k doc = (Raise e, doc).
Proof. rewrite (pop_run _ _ _ Hr). destruct o; try done; simpl; eauto. Qed.

Lemma contains_scalar (k : string) :
  is_scalar o = true -> contains k r doc = (Raise TypeError, doc).
Proof. intros Hs. rewrite (contains_run _ _ _ Hr). by destruct o. Qed.

Lemma contains_not_dict (k : string) :
  contains k r doc = (Raise TypeError, doc)
  \/ exists b : bool, contains k r doc = (Return b, doc).
Proof.
  rewrite (contains_run _ _ _ Hr). destruct o; simpl; eauto.
Qed.

Lemma descend_plain_not_dict (prop_path seg : string) :
  Re.pattern_match seg = None ->
  descend prop_path r seg doc = (Raise TypeError, doc).
Proof.
  intros Hm. unfold descend. rewrite Hm.
  destruct (contains_not_dict seg) as [H|[[] H]].
  - by rewrite (bind_Raise _ _ _ _ _ H).
  - rewrite (bind_Return _ _ _ _ _ H). unfold ret at 1, bind at 1.
    apply getitem_not_dict.
  - rewrite (bind_Return _ _ _ _ _ H).
    by rewrite (bind_Raise _ _ _ _ _ (setitem_not_dict _ _)).
Qed.

Lemma descend_scalar (prop_path seg : string) :
  is_scalar o = true ->
  descend prop_path r seg doc = (Raise TypeError, doc).
Proof.
  intros Hs. unfold descend.
  destruct (Re.pattern_match seg) as [[name ds]|];
    by rewrite (bind_Raise _ _ _ _ _ (contains_scalar _ Hs)).
Qed.

End NotADict.

(** X7.  Resolution does not replace what is there: when the walk
    reaches an object that is not a mapping (the value of a key written
    without a value, a number, a string, a list) and the next segment
    is a plain key, [_get_object_by_path] raises [TypeError]; when the
    object is [None], a [bool] or an [int] it raises [TypeError]
    whatever the form of the next segment.  The document stays as it
    was when that object was reached. *)
Theorem resolution_through_non_mapping
    (prop_path : string) (pre post : list string) (seg : string)
    (doc doc1 : value) (cur : loc) (o : value) :
  _split_path prop_path = pre ++ seg :: post ->
  walk prop_path self_obj pre doc = (Return cur, doc1) ->
  deref doc1 cur = Some o ->
  is_dict o = false ->
  (Re.pattern_match seg = None \/ is_scalar o = true) ->
  _get_object_by_path prop_path doc = (Raise TypeError, doc1).
Proof.
  intros Hsplit Hpre Hcur Ho Hc. unfold _get_object_by_path. rewrite Hsplit.
  rewrite (walk_through _ _ _ _ _ _ _ Hpre). destruct Hc as [Hm|Hs].
  - by rewrite (bind_Raise _ _ _ _ _ (descend_plain_not_dict _ _ _ Hcur Ho _ _ Hm)).
  - by rewrite (bind_Raise _ _ _ _ _ (descend_scalar _ _ _ Hcur Ho _ _ Hs)).
Qed.

(** X14.  No operation writes through a parent that is not a mapping:
    when the parent the path resolves to is a list, a string, a number
    or [None], [set_value] and [append_value] raise [TypeError], and
    [delete_property] ends (normally or not) without having changed
    anything; the document is as the resolution left it. *)
Theorem operations_on_non_mapping_parent
    (path : string) (v : value) (raise_if_missing : bool)
    (doc doc1 : value) (obj : loc) (pname : string) (o : value) :
  _get_parent_obj_prop_name_by_path path doc = (Return (obj, pname), doc1) ->
  deref doc1 obj = Some o ->
  is_dict o = false ->
  set_value path v doc = (Raise TypeError, doc1)
  /\ append_value path v doc = (Raise TypeError, doc1)
  /\ snd (delete_property path raise_if_missing doc) = doc1.
Proof.
  intros Hres Hobj Ho. split; [|split].
  - unfold set_value. rewrite (bind_Return _ _ _ _ _ Hres).
    destruct (Re.pattern_match pname) as [[name ds]|].
    + by rewrite (bind_Raise _ _ _ _ _ (getitem_not_dict _ _ _ Hobj Ho _)).
    + apply (setitem_not_dict _ _ _ Hobj Ho).
  - unfold append_value. rewrite (bind_Return _ _ _ _ _ Hres).
    by rewrite (bind_Raise _ _ _ _ _ (getitem_not_dict _ _ _ Hobj Ho _)).
  - unfold delete_property. rewrite (bind_Return _ _ _ _ _ Hres).
    destruct (contains_not_dict _ _ _ Hobj Ho pname) as [H|[[] H]].
    + by rewrite (bind_Raise _ _ _ _ _ H).
    + rewrite (bind_Return _ _ _ _ _ H).
      destruct (pop_not_dict _ _ _ Hobj Ho pname) as [e ->]. done.
    + rewrite (bind_Return _ _ _ _ _ H). destruct raise_if_missing; [|done].
      by rewrite (bind_Return _ _ _ _ _ (read_run _ _ _ Hobj)).
Qed.

(** ** The parent path put together again *)

Lemma append_nil_r (s : string) : s +:+ EmptyString = s.
Proof. induction s as [|c s IH]; [done|]. by rewrite append_cons, IH. Qed.

Lemma cons_head_cons_head (a b : string) (l : list string) :
  cons_head a (cons_head b l) = cons_head (a +:+ b) l.
Proof. destruct l; simpl; [done|]. by rewrite append_assoc. Qed.

Lemma split_from_cons (p2 p1 : option ascii) (c : ascii) (t : string) :
  Re.split_from p2 p1 (String c t)
  = if Ascii.eqb c Re.dot && negb (Re.lookbehind p2 p1)
    then EmptyString :: Re.split_from p1 (Some c) t
    else cons_head (String c EmptyString) (Re.split_from p1 (Some c) t).
Proof.
  cbn [Re.split_from].
  destruct (Ascii.eqb c Re.dot && negb (Re.lookbehind p2 p1)); [done|].
  by destruct (Re.split_from p1 (Some c) t).
Qed.

Lemma lookbehind_not_backslash (p2 p1 : option ascii) :
  p1 <> Some Re.backslash -> Re.lookbehind p2 p1 = false.
Proof.
  intros H. destruct p2 as [a|], p1 as [b|]; try done. simpl.
  destruct (Ascii.eqb_spec b Re.backslash) as [->|_]; [done|].
  by rewrite andb_false_r.
Qed.

(** The code's own escaping of a segment: [p.replace('.', '\.')]. *)
Lemma escape_cons (c : ascii) (t : string) :
  Py.replace "." "\." (String c t)
  = if Ascii.eqb c Re.dot
    then String Re.backslash (String Re.dot (Py.replace "." "\." t))
    else String c (Py.replace "." "\." t).
Proof.
  unfold Py.replace. cbn [Py.replace_from Py.startswith].
  rewrite (Ascii.eqb_sym "." c). unfold Re.dot.
  by destruct (Ascii.eqb c ".").
Qed.

Lemma split_from_escaped_segment (s : string) :
  without Re.backslash s = true ->
  forall (p2 p1 : option ascii) (rest : string),
    p1 <> Some Re.backslash ->
    (starts_with_dot s = true -> p1 <> None) ->
    exists q2 q1 : option ascii,
      q1 <> Some Re.backslash
      /\ Re.split_from p2 p1 (Py.replace "." "\." s +:+ rest)
         = cons_head (Py.replace "." "\." s) (Re.split_from q2 q1 rest).
Proof.
  induction s as [|c t IH]; intros Hs p2 p1 rest Hp1 Hdot.
  - exists p2, p1. split; [done|].
    change (Py.replace "." "\." EmptyString) with EmptyString.
    rewrite append_nil. pose proof (split_from_nonempty rest p2 p1) as Hne.
    by destruct (Re.split_from p2 p1 rest).
  - apply without_cons in Hs as [Hc Hs]. rewrite escape_cons.
    destruct (Ascii.eqb c Re.dot) eqn:Ed.
    + destruct p1 as [x|]; [|by destruct Hdot].
      assert (Hx : Ascii.eqb x Re.backslash = false).
      { apply Ascii.eqb_neq. congruence. }
      destruct (IH Hs (Some Re.backslash) (Some Re.dot) rest)
        as (q2 & q1 & Hq & E); [done|done|].
      exists q2, q1. split; [done|].
      rewrite !append_cons, split_from_cons.
      change (Ascii.eqb Re.backslash Re.dot) with false. cbn [andb].
      rewrite split_from_cons.
      assert (Hl : Re.lookbehind (Some x) (Some Re.backslash) = true)
        by (simpl; by rewrite Hx).
      rewrite Hl. change (Ascii.eqb Re.dot Re.dot) with true. cbn [andb negb].
      rewrite E, !cons_head_cons_head. done.
    + destruct (IH Hs p1 (Some c) rest) as (q2 & q1 & Hq & E).
      { intros [= ->]. by rewrite Ascii.eqb_refl in Hc. }
      { done. }
      exists q2, q1. split; [done|].
      rewrite append_cons, split_from_cons, Ed. cbn [andb].
      by rewrite E, cons_head_cons_head.
Qed.

Lemma split_from_escaped_join (segs : list string) :
  Forall (fun s => without Re.backslash s = true) segs ->
  segs <> [] ->
  forall p2 p1 : option ascii,
    p1 <> Some Re.backslash ->
    (starts_with_dot (hd EmptyString segs) = true -> p1 <> None) ->
    Re.split_from p2 p1 (Py.join "." (map (Py.replace "." "\.") segs))
    = map (Py.replace "." "\.") segs.
Proof.
  induction segs as [|s segs IH]; intros Hall Hne p2 p1 Hp1 Hdot; [done|].
  apply Forall_cons in Hall as [Hs Hall].
  destruct segs as [|s' segs].
  - destruct (split_from_escaped_segment s Hs p2 p1 EmptyString Hp1 Hdot)
      as (q2 & q1 & _ & E).
    simpl map. cbn [Py.join]. rewrite append_nil_r in E. rewrite E.
    simpl. by rewrite append_nil_r.
  - rewrite map_cons, join_cons by done.
    destruct (split_from_escaped_segment s Hs p2 p1
                ("." +:+ Py.join "." (map (Py.replace "." "\.") (s' :: segs)))
                Hp1 Hdot) as (q2 & q1 & Hq & E).
    rewrite E. change ("." +:+ ?x) with (String Re.dot x).
    rewrite split_from_cons. rewrite (lookbehind_not_backslash _ _ Hq).
    change (Ascii.eqb Re.dot Re.dot) with true. cbn [andb negb].
    rewrite IH; [|done|done|done|done].
    simpl. by rewrite append_nil_r.
Qed.

Lemma unescape_escape (s : string) :
  without Re.backslash s = true ->
  Py.replace "\\" "\" (Py.replace "\." "." (Py.replace "." "\." s)) = s.
Proof.
  intros Hs.
  assert (E : Py.replace "\." "." (Py.replace "." "\." s) = s).
  { induction s as [|c t IH]; [done|].
    apply without_cons in Hs as [Hc Hs]. rewrite escape_cons.
    destruct (Ascii.eqb c Re.dot) eqn:Ed.
    - apply Ascii.eqb_eq in Ed as ->. unfold Py.replace in *.
      unfold Re.backslash, Re.dot. cbn [Py.replace_from].
      change (Py.startswith "\." (String "\" (String "." ?x))) with true.
      cbn iota. change (String.length "\." - 1)%nat with 1%nat. cbn iota.
      rewrite (IH Hs). done.
    - unfold Py.replace in *. cbn [Py.replace_from].
      rewrite (startswith_other _ _ _ _ Hc). by rewrite (IH Hs). }
  rewrite E. by apply replace_from_without.
Qed.

Lemma split_path_escaped (segs : list string) :
  segs <> [] ->
  Forall (fun s => without Re.backslash s = true) segs ->
  starts_with_dot (hd EmptyString segs) = false ->
  _split_path (Py.join "." (map (fun p => Py.replace "." "\." p) segs)) = segs.
Proof.
  intros Hne Hall Hdot. unfold _split_path, Re.split_dots.
  rewrite split_from_escaped_join; [|done|done|done|by rewrite Hdot].
  rewrite map_map. clear Hne Hdot.
  induction Hall as [|s segs Hs Hall IH]; [done|].
  simpl. by rewrite (unescape_escape _ Hs), IH.
Qed.

(** X3.  What [_get_parent_obj_prop_name_by_path] does to put the parent
    path together again is undone by [_split_path], as long as no
    segment has a backslash and the first segment does not start with a
    dot: escaping the dots of each segment, joining the segments with
    dots and splitting the result gives the segments back, and there
    are as many segments as before. *)
Theorem _split_path_of_escaped_segments (segs : list string) :
  segs <> [] ->
  Forall (fun s => without Re.backslash s = true) segs ->
  starts_with_dot (hd EmptyString segs) = false ->
  let parent_path := Py.join "." (map (fun p => Py.replace "." "\." p) segs) in
  _split_path parent_path = segs
  /\ length (Re.split_dots parent_path) = length segs.
Proof.
  intros Hne Hall Hdot parent_path.
  pose proof (split_path_escaped segs Hne Hall Hdot) as E. fold parent_path in E.
  split; [done|]. transitivity (length (_split_path parent_path)).
  - unfold _split_path. by rewrite length_map.
  - by rewrite E.
Qed.

Lemma resolve_by_segments (path : string) (pre : list string) (last : string) :
  _split_path path = pre ++ [last] ->
  pre <> [] ->
  Forall (fun s => without Re.backslash s = true) pre ->
  starts_with_dot (hd EmptyString pre) = false ->
  forall doc : value,
    _get_parent_obj_prop_name_by_path path doc
    = (let* parent :=
         walk (Py.join "." (map (fun p => Py.replace "." "\." p) pre))
              self_obj pre in
       ret (parent, last)) doc.
Proof.
  intros Hsplit Hne Hall Hdot doc. unfold _get_parent_obj_prop_name_by_path.
  rewrite Hsplit, removelast_last, last_last.
  assert (Hlen : (length (pre ++ [last]) =? 1)%nat = false).
  { apply Nat.eqb_neq. rewrite length_app. destruct pre; [done|]. simpl. lia. }
  rewrite Hlen. unfold _get_object_by_path.
  by rewrite (split_path_escaped _ Hne Hall Hdot).
Qed.

(** X4.  For a path of two segments or more whose parent segments have
    no backslash and do not begin with a dot,
    [_get_parent_obj_prop_name_by_path] walks exactly the parent
    segments from the root (creating what is absent, raising as the walk
    raises) and names the last segment: the detour by a parent path put
    together again changes nothing but the path quoted in a
    [RuntimeError]. *)
Theorem parent_is_walked_by_its_segments
    (path : string) (pre : list string) (last : string) (doc : value) :
  _split_path path = pre ++ [last] ->
  pre <> [] ->
  Forall (fun s => without Re.backslash s = true) pre ->
  starts_with_dot (hd EmptyString pre) = false ->
  let parent_path := Py.join "." (map (fun p => Py.replace "." "\." p) pre) in
  _get_parent_obj_prop_name_by_path path doc
  = match walk parent_path self_obj pre doc with
    | (Return parent, doc1) => (Return (parent, last), doc1)
    | (Raise e, doc1) => (Raise e, doc1)
    end
  /\ _get_object_by_path parent_path doc = walk parent_path self_obj pre doc.
Proof.
  intros Hsplit Hne Hall Hdot parent_path. split.
  - rewrite (resolve_by_segments _ _ _ Hsplit Hne Hall Hdot). unfold bind.
    fold parent_path. by destruct (walk parent_path self_obj pre doc) as [[o|e] d1].
  - unfold _get_object_by_path, parent_path.
    by rewrite (split_path_escaped _ Hne Hall Hdot).
Qed.

(** X15.  Reading back what was set.  For a path whose last segment is a
    plain key and which is either one segment that needs no unescaping,
    or several segments whose parent segments have no backslash and do
    not begin with a dot: after a [set_value] that returned, resolving
    the whole path changes nothing and leads to the value that was
    set. *)
Theorem set_value_then_resolve
    (path : string) (pre : list string) (last : string) (v : value)
    (doc doc2 : value) :
  _split_path path = pre ++ [last] ->
  (pre = [] /\ last = path)
  \/ (pre <> [] /\ Forall (fun s => without Re.backslash s = true) pre
      /\ starts_with_dot (hd EmptyString pre) = false) ->
  Re.pattern_match last = None ->
  set_value path v doc = (Return tt, doc2) ->
  exists found : loc,
    _get_object_by_path path doc2 = (Return found, doc2)
    /\ deref doc2 found = Some v.
Proof.
  intros Hsplit Hcase Hm Hset.
  destruct (set_value_inv _ _ _ _ Hset)
    as (obj & pname & doc1 & d & Hres & Hobj & Hc).
  assert (Hwalk : pname = last
                  /\ exists pp, walk pp self_obj pre doc = (Return obj, doc1)).
  { destruct Hcase as [[-> ->]|(Hne & Hall & Hdot)].
    - rewrite single_segment_resolve in Hres by (by rewrite Hsplit).
      injection Hres as <- <- <-. split; [done|]. by exists path.
    - rewrite (resolve_by_segments _ _ _ Hsplit Hne Hall Hdot) in Hres.
      apply bind_inv in Hres as (parent & doc' & Hw & Hret).
      injection Hret as <- <- <-. split; [done|]. eauto. }
  destruct Hwalk as (-> & pp & Hwalk).
  destruct Hc as [_|(name & ds & l & Hm' & _)]; [|congruence].
  rewrite (set_value_run_plain _ _ _ _ _ _ Hres Hobj _ Hm) in Hset.
  injection Hset as <-.
  destruct (deref_setitem _ _ _ Hobj last v) as [Hd Hv].
  exists (obj ++ [Key last]). split; [|done].
  unfold _get_object_by_path. rewrite Hsplit, walk_app.
  assert (Hroot : is_Some (deref doc self_obj)) by (simpl; eauto).
  rewrite (bind_Return _ _ _ _ _ (walk_again _ _ _ _ _ _ Hroot Hwalk path _)).
  simpl.
  by rewrite (bind_Return _ _ _ _ _
                (descend_plain_present path _ _ _ Hd last v Hm
                   (lookup_insert_eq _ _ _))).
Qed.

(** ** Adding what cannot be added *)

Lemma py_add_raises (a b : value) (e : exn) :
  py_add a b = Raise e -> e = TypeError.
Proof.
  unfold py_add.
  destruct a, b; simpl; try discriminate; try (by intros [= <-]);
    repeat case_match; try discriminate; by intros [= <-].
Qed.

(** X16.  [append_value] with an operand that the stored value does not
    take (a list and something that is not a list, a string and a
    number, a mapping, [None]) raises [TypeError] and leaves the stored
    value, and the document as the resolution left it, untouched. *)
Theorem append_value_type_error
    (path : string) (v old : value) (e : exn) (doc doc1 : value) (obj : loc)
    (pname : string) (d : gmap string value) :
  _get_parent_obj_prop_name_by_path path doc = (Return (obj, pname), doc1) ->
  deref doc1 obj = Some (VDict d) ->
  d !! pname = Some old ->
  py_add old v = Raise e ->
  append_value path v doc = (Raise TypeError, doc1)
  /\ deref doc1 (obj ++ [Key pname]) = Some old.
Proof.
  intros Hres Hobj Hk Hadd. split.
  - rewrite (append_value_run _ _ _ _ _ _ Hres Hobj v _ Hk), Hadd.
    by rewrite (py_add_raises _ _ _ Hadd).
  - by rewrite (deref_item _ _ _ Hobj).
Qed.

(** ** One session after the other *)

Section Sessions.

Import Session.

Variable yaml_load : string -> option value.
Variable json_dumps : value -> string.
Variable yaml_safe_dump : value -> bool -> string.

(** X17.  Two sessions on the same file, the first of which returns
    with the document [doc1], written in a form that [yaml.load] reads
    back as [doc1]: the second session starts from [doc1]; when its
    body returns too, the disk ends as after one session running the
    two bodies in a row; when its body raises, the disk keeps what the
    first session wrote, whereas one session running the two bodies in
    a row would have written nothing. *)
Theorem session_after_session
    (path : string) (json flow : bool) (body1 body2 : M unit) (disk : files)
    (self : patcher) (doc1 : value) :
  __init__ yaml_load path json flow disk = inl self ->
  body1 (obj self) = (Return tt, doc1) ->
  let written := if json then json_dumps doc1 else yaml_safe_dump doc1 flow in
  yaml_load written = Some doc1 ->
  let disk1 :=
    snd (with_patcher yaml_load json_dumps yaml_safe_dump path json flow body1 disk) in
  __init__ yaml_load path json flow disk1 = inl (Patcher path doc1 json flow)
  /\ (forall doc2 : value,
        body2 doc1 = (Return tt, doc2) ->
        with_patcher yaml_load json_dumps yaml_safe_dump path json flow body2 disk1
        = with_patcher yaml_load json_dumps yaml_safe_dump path json flow
            (let* _ := body1 in body2) disk)
  /\ (forall (e : exn) (doc2 : value),
        body2 doc1 = (Raise e, doc2) ->
        with_patcher yaml_load json_dumps yaml_safe_dump path json flow body2 disk1
        = (Raised (class_of e), disk1)
        /\ with_patcher yaml_load json_dumps yaml_safe_dump path json flow
             (let* _ := body1 in body2) disk
           = (Raised (class_of e), disk)
        /\ disk1 !! path = Some written).
Proof.
  intros Hinit Hb1 written Hload disk1.
  assert (Hself : self = Patcher path (obj self) json flow).
  { unfold __init__ in Hinit. destruct (disk !! path); [|discriminate].
    destruct (yaml_load s); [|discriminate]. by injection Hinit as <-. }
  assert (Hdisk1 : disk1 = <[path := written]> disk).
  { unfold disk1, with_patcher. rewrite Hinit. unfold __enter__. rewrite Hb1.
    rewrite Hself. done. }
  clearbody disk1. unfold files in *.
  assert (Hinit1 : __init__ yaml_load path json flow disk1
                   = inl (Patcher path doc1 json flow)).
  { unfold __init__. rewrite Hdisk1. unfold files.
    rewrite lookup_insert_eq. by rewrite Hload. }
  assert (Hseq : forall out doc2, body2 doc1 = (out, doc2) ->
                   (let* _ := body1 in body2) (obj self) = (out, doc2)).
  { intros out doc2 Hb2. by rewrite (bind_Return _ _ _ _ _ Hb1). }
  split; [done|]. split.
  - intros doc2 Hb2. unfold with_patcher. rewrite Hinit1, Hinit.
    unfold __enter__. simpl obj. rewrite Hb2, (Hseq _ _ Hb2).
    rewrite Hself. simpl. rewrite Hdisk1. unfold files.
    by rewrite insert_insert_eq.
  - intros e doc2 Hb2. split; [|split].
    + unfold with_patcher. rewrite Hinit1. unfold __enter__. simpl obj.
      by rewrite Hb2.
    + unfold with_patcher. rewrite Hinit. unfold __enter__.
      by rewrite (Hseq _ _ Hb2).
    + rewrite Hdisk1. apply lookup_insert_eq.
Qed.

End Sessions.

(** ** Rendering the variables *)

Section Rendering.

Import Variables.

Variable jinja_error : Type.
Variable template : Type.
Variable Template : string -> jinja_error + template.
Variable render : template -> gmap string value -> jinja_error + string.

Lemma process_items_run (tv : value) (f : value -> value)
    (items : list (string * value)) :
  NoDup items.*1 ->
  (forall (k : string) (v : value),
     (k, v) ∈ items -> process_value _ _ Template render tv v = inr (f v)) ->
  forall acc : gmap string value,
    process_items _ _ Template render tv items acc
    = inr (list_to_map (prod_map id f <$> items) ∪ acc).
Proof.
  induction items as [|[k v] items IH]; intros Hnd Hall acc.
  - simpl. by rewrite (left_id_L ∅ (∪)).
  - rewrite fmap_cons in Hnd. apply NoDup_cons in Hnd as [Hk Hnd].
    simpl. rewrite (Hall k v) by apply list_elem_of_here.
    assert (Hrest : forall (k' : string) (v' : value),
              (k', v') ∈ items ->
              process_value _ _ Template render tv v' = inr (f v')).
    { intros k' v' Hin. apply (Hall k'). by apply list_elem_of_further. }
    rewrite (IH Hnd Hrest).
    f_equal. rewrite <- insert_union_l. symmetry. apply insert_union_r.
    apply not_elem_of_list_to_map_1.
    rewrite <- list_fmap_compose.
    by replace (fst ∘ prod_map id f) with (@fst string value).
Qed.

Lemma process_variables_run (suites_yaml d : gmap string value)
    (f : value -> value) :
  (forall (k : string) (v : value),
     d !! k = Some v ->
     process_value _ _ Template render (template_variables suites_yaml) v
     = inr (f v)) ->
  process_variables _ _ Template render suites_yaml d = inr (f <$> d).
Proof.
  intros Hall. unfold process_variables.
  rewrite (process_items_run _ f).
  - rewrite (right_id_L ∅ (∪)), list_to_map_fmap. by rewrite list_to_map_to_list.
  - apply NoDup_fst_map_to_list.
  - intros k v Hin. apply (Hall k). by apply elem_of_map_to_list.
Qed.

(** X18.  [process_variables] when the template variables are a mapping
    (or are absent) and every string value compiles and renders: the
    result has the keys of the input; a string value is replaced by its
    rendering with the template variables; any other value is kept as
    it is. *)
Theorem process_variables_renders_strings
    (suites_yaml d kwargs : gmap string value) (text : string -> string) :
  template_variables suites_yaml = VDict kwargs ->
  (forall (k source : string),
     d !! k = Some (VStr source) ->
     exists t : template,
       Template source = inr t /\ render t kwargs = inr (text source)) ->
  let result := render_with text <$> d in
  process_variables _ _ Template render suites_yaml d = inr result
  /\ dom result = dom d
  /\ (forall (k source : string),
        d !! k = Some (VStr source) -> result !! k = Some (VStr (text source)))
  /\ (forall (k : string) (v : value),
        d !! k = Some v -> is_str v = false -> result !! k = Some v).
Proof.
  intros Htv Hall result. split; [|split; [|split]].
  - apply process_variables_run. intros k v Hk. rewrite Htv.
    destruct v; try done. destruct (Hall _ _ Hk) as (t & Ht & Hr).
    simpl. by rewrite Ht, Hr.
  - apply dom_fmap_L.
  - intros k source Hk. unfold result. by rewrite lookup_fmap, Hk.
  - intros k v Hk Hv. unfold result. rewrite lookup_fmap, Hk.
    by destruct v.
Qed.

(** X19.  [process_variables] on a dictionary without any string value
    returns an equal dictionary, whatever the suite holds under
    [variables]: the template variables are only looked at when there
    is a string to render. *)
Theorem process_variables_without_strings
    (suites_yaml d : gmap string value) :
  (forall (k : string) (v : value), d !! k = Some v -> is_str v = false) ->
  process_variables _ _ Template render suites_yaml d = inr d.
Proof.
  intros Hall. rewrite (process_variables_run _ _ id).
  - by rewrite map_fmap_id.
  - intros k v Hk. specialize (Hall _ _ Hk). by destruct v.
Qed.

Lemma process_items_inv (tv : value) (items : list (string * value)) :
  forall acc m : gmap string value,
    process_items _ _ Template render tv items acc = inr m ->
    forall (k : string) (v : value),
      (k, v) ∈ items ->
      exists v' : value, process_value _ _ Template render tv v = inr v'.
Proof.
  induction items as [|[k0 v0] items IH]; intros acc m H k v Hin.
  - by apply elem_of_nil in Hin.
  - simpl in H.
    destruct (process_value _ _ Template render tv v0) as [e|v0'] eqn:E;
      [discriminate|].
    apply elem_of_cons in Hin as [[= -> ->]|Hin]; [eauto|].
    by eapply IH.
Qed.

(** X20.  [process_variables] returns only when every string value
    could be rendered: if it returns, then for each string value of the
    input the template variables were a mapping and the string compiled
    and rendered with them. *)
Theorem process_variables_returns_only_rendered
    (suites_yaml d m : gmap string value) :
  process_variables _ _ Template render suites_yaml d = inr m ->
  forall (k source : string),
    d !! k = Some (VStr source) ->
    exists (kwargs : gmap string value) (t : template) (text : string),
      template_variables suites_yaml = VDict kwargs
      /\ Template source = inr t
      /\ render t kwargs = inr text.
Proof.
  intros H k source Hk. unfold process_variables in H.
  destruct (process_items_inv _ _ _ _ H k (VStr source)) as [v' Hv].
  { by apply elem_of_map_to_list. }
  simpl in Hv. destruct (Template source) as [e|t]; [discriminate|].
  destruct (template_variables suites_yaml) as [| | | | |kwargs];
    try discriminate.
  destruct (render t kwargs) as [e|text] eqn:Er; [discriminate|].
  by exists kwargs, t, text.
Qed.

End Rendering.

(** ** Resolution only adds *)

Lemma kept_refl (v : value) : kept v (Some v).
Proof. destruct v; simpl; try done. Qed.

Lemma grows_refl (doc : value) : grows doc doc.
Proof. intros r v ->. apply kept_refl. Qed.

Lemma grows_trans (a b c : value) : grows a b -> grows b c -> grows a c.
Proof.
  intros Hab Hbc r v Hr. specialize (Hab r v Hr).
  destruct (deref b r) as [vb|] eqn:Eb; [|by destruct v].
  specialize (Hbc r vb Eb).
  destruct v; simpl in Hab; try (injection Hab as ->; exact Hbc);
    destruct vb; try done; simpl in Hbc;
    destruct (deref c r) as [[]|]; try done; simpl.
  - congruence.
  - set_solver.
Qed.

(** Growth of an object inside the document is growth of the document. *)
Lemma grows_assign (cur : loc) :
  forall doc o new : value,
    deref doc cur = Some o -> grows o new -> grows doc (assign doc cur new).
Proof.
  induction cur as [|[k|i] cur IH]; intros doc o new Ho Hg.
  - simpl in *. by injection Ho as ->.
  - simpl in Ho. destruct doc; try done.
    destruct (d !! k) as [child|] eqn:Ek; [|done]. simpl in Ho.
    simpl. rewrite Ek. intros [|[k'|i'] r] v Hr; simpl in *.
    + injection Hr as <-. simpl. rewrite dom_insert_L. set_solver.
    + destruct (decide (k' = k)) as [->|Hne].
      * rewrite Ek in Hr. rewrite lookup_insert_eq. simpl in *.
        by apply (IH _ _ _ Ho Hg).
      * rewrite lookup_insert_ne by done.
        destruct (d !! k') as [c|]; [|done]. simpl in *.
        rewrite Hr. apply kept_refl.
    + done.
  - simpl in Ho. destruct doc; try done.
    destruct (l !! i) as [child|] eqn:Ei; [|done]. simpl in Ho.
    simpl. rewrite Ei. intros [|[k'|i'] r] v Hr; simpl in *.
    + injection Hr as <-. simpl. by rewrite length_insert.
    + done.
    + destruct (decide (i' = i)) as [->|Hne].
      * rewrite Ei in Hr.
        rewrite list_lookup_insert_eq by (by eapply lookup_lt_Some).
        simpl in *. by apply (IH _ _ _ Ho Hg).
      * rewrite list_lookup_insert_ne by done.
        destruct (l !! i') as [c|]; [|done]. simpl in *.
        rewrite Hr. apply kept_refl.
Qed.

Lemma grows_insert_fresh (d : gmap string value) (k : string) (v : value) :
  d !! k = None -> grows (VDict d) (VDict (<[k := v]> d)).
Proof.
  intros Hk [|[k'|i'] r] x Hr; simpl in *.
  - injection Hr as <-. simpl. rewrite dom_insert_L. set_solver.
  - destruct (decide (k' = k)) as [->|Hne]; [by rewrite Hk in Hr|].
    rewrite lookup_insert_ne by done.
    destruct (d !! k') as [c|]; [|done]. simpl in *. rewrite Hr.
    apply kept_refl.
  - done.
Qed.

Lemma descend_grows (prop_path seg : string) (cur : loc) (doc doc' : value)
    (out : outcome loc) :
  is_Some (deref doc cur) ->
  descend prop_path cur seg doc = (out, doc') ->
  grows doc doc'.
Proof.
  intros [o Ho] H.
  destruct (is_dict o) eqn:Hd.
  - destruct o as [| | | | |d]; try done.
    destruct (Re.pattern_match seg) as [[name ds]|] eqn:Hm.
    + assert (doc' = doc); [|subst; apply grows_refl].
      destruct (d !! name) as [v|] eqn:Ek.
      * destruct (is_list v) eqn:Hv.
        -- destruct v; try done.
           rewrite (descend_indexed_list _ _ _ _ Ho _ _ _ _ Hm Ek) in H.
           congruence.
        -- rewrite (descend_indexed_not_list _ _ _ _ Ho _ _ _ _ Hm Ek Hv) in H.
           congruence.
      * rewrite (descend_indexed_absent _ _ _ _ Ho _ _ _ Hm Ek) in H.
        congruence.
    + destruct (d !! seg) as [v|] eqn:Ek.
      * rewrite (descend_plain_present _ _ _ _ Ho _ _ Hm Ek) in H.
        injection H as _ <-. apply grows_refl.
      * rewrite (descend_plain_absent _ _ _ _ Ho _ Hm Ek) in H.
        injection H as _ <-.
        eapply grows_assign; [exact Ho|]. by apply grows_insert_fresh.
  - assert (doc' = doc); [|subst; apply grows_refl].
    destruct (Re.pattern_match seg) as [[name ds]|] eqn:Hm.
    + unfold descend in H. rewrite Hm in H.
      destruct (contains_not_dict _ _ _ Ho Hd name) as [Hc|[[] Hc]].
      * rewrite (bind_Raise _ _ _ _ _ Hc) in H. congruence.
      * rewrite (bind_Return _ _ _ _ _ Hc) in H.
        unfold ret at 1, bind at 1 in H.
        rewrite (bind_Raise _ _ _ _ _ (getitem_not_dict _ _ _ Ho Hd _)) in H.
        congruence.
      * rewrite (bind_Return _ _ _ _ _ Hc) in H.
        unfold _raise_illegal, raise, bind in H. congruence.
    + rewrite (descend_plain_not_dict _ _ _ Ho Hd _ _ Hm) in H. congruence.
Qed.

Lemma walk_grows (prop_path : string) (segments : list string) :
  forall (cur : loc) (doc doc' : value) (out : outcome loc),
    is_Some (deref doc cur) ->
    walk prop_path cur segments doc = (out, doc') ->
    grows doc doc'.
Proof.
  induction segments as [|seg rest IH]; intros cur doc doc' out Hv H.
  - injection H as _ <-. apply grows_refl.
  - simpl in H. unfold bind in H.
    destruct (descend prop_path cur seg doc) as [[next|e] doc1] eqn:E.
    + eapply grows_trans; [by eapply descend_grows|].
      eapply IH; [|exact H]. by eapply descend_valid.
    + injection H as _ <-. by eapply descend_grows.
Qed.

(** X21.  Path resolution only adds to the document, whether it ends
    normally or raises: whatever could be found in the document before
    can be found at the same place afterwards; a mapping has kept all its
    keys, a list has kept its length, and a string, a number, a boolean
    or [None] is unchanged. *)
Theorem resolution_only_adds
    (path : string) (doc doc1 : value) (out : outcome loc)
    (r : loc) (v : value) :
  _get_object_by_path path doc = (out, doc1) ->
  deref doc r = Some v ->
  kept v (deref doc1 r)
  /\ (is_dict v = false -> is_list v = false -> deref doc1 r = Some v)
  /\ is_Some (deref doc1 r).
Proof.
  intros H Hr.
  assert (Hk : kept v (deref doc1 r)).
  { eapply (walk_grows _ _ self_obj); [|exact H|exact Hr]. simpl. eauto. }
  split; [done|]. split.
  - intros Hd Hl. by destruct v.
  - destruct v; simpl in Hk; try (rewrite Hk; eauto);
      destruct (deref doc1 r) as [[]|]; try done; eauto.
Qed.

(** * The further properties at work on concrete documents *)

Lemma pattern_match_sound_witness :
  exists rest : string,
    "a[0][12]xyz" = "a[0]" +:+ "[" +:+ "12" +:+ "]" +:+ rest
    /\ "a[0]" <> EmptyString /\ without Re.newline "a[0]" = true
    /\ "12" <> EmptyString /\ all_digits "12" = true.
Proof. exact (pattern_match_sound "a[0][12]xyz" "a[0]" "12" eq_refl). Defined.

Lemma pattern_match_greedy_witness :
  exists g' ds' : string,
    Re.pattern_match ("a" +:+ "[" +:+ "0" +:+ "]" +:+ "[1]") = Some (g', ds')
    /\ (String.length "a" <= String.length g')%nat.
Proof.
  exact (pattern_match_greedy "a" "0" "[1]"
           ltac:(discriminate) eq_refl ltac:(discriminate) eq_refl).
Defined.

Lemma _split_path_of_escaped_segments_witness :
  _split_path "a\.b.c.\.d" = ["a.b"; "c"; ".d"].
Proof.
  exact (proj1 (_split_path_of_escaped_segments ["a.b"; "c"; ".d"]
                  ltac:(discriminate) ltac:(repeat constructor) eq_refl)).
Defined.

Lemma parent_is_walked_by_its_segments_witness :
  _get_parent_obj_prop_name_by_path "a.x.c" doc_ab
  = (Return ([Key "a"; Key "x"], "c"),
     VDict {[ "a" := VDict {[ "b" := VList [VInt 1; VInt 2; VInt 3];
                              "x" := VDict ∅ ]} ]}).
Proof.
  exact (proj1 (parent_is_walked_by_its_segments "a.x.c" ["a"; "x"] "c" doc_ab
                  eq_refl ltac:(discriminate) ltac:(repeat constructor) eq_refl)).
Defined.

Lemma resolution_follows_present_segment_witness :
  _get_object_by_path "a.b" doc_ab = walk "a.b" [Key "a"] ["b"] doc_ab
  /\ _get_object_by_path "a.b[1]" doc_ab
     = (Return [Key "a"; Key "b"; Idx 1], doc_ab).
Proof.
  pose (d := ({[ "b" := VList [VInt 1; VInt 2; VInt 3] ]} : gmap string value)).
  split.
  - exact (proj1 (proj1 (resolution_follows_present_segment "a.b" [] ["b"] "a"
                           doc_ab doc_ab [] {[ "a" := VDict d ]}
                           eq_refl eq_refl eq_refl)
                   (VDict d) eq_refl eq_refl)).
  - exact (proj1 (proj2 (resolution_follows_present_segment "a.b[1]" ["a"] []
                           "b[1]" doc_ab doc_ab [Key "a"] d
                           eq_refl eq_refl eq_refl)
                   "b" "1" [VInt 1; VInt 2; VInt 3] (VInt 2)
                   eq_refl eq_refl eq_refl)).
Defined.

Lemma _get_object_by_path_twice_witness :
  (_get_object_by_path "a.x.y" doc_axy
   = (Return [Key "a"; Key "x"; Key "y"], doc_axy)
   /\ (let* _ := _get_object_by_path "a.x.y" in _get_object_by_path "a.x.y") doc_ab
      = _get_object_by_path "a.x.y" doc_ab)
  /\ (_get_object_by_path "x.y[0]" doc_ab_x
      = (Raise (RuntimeError "illegal path: x.y[0]"), doc_ab_x)
      /\ (let* _ := _get_object_by_path "x.y[0]" in _get_object_by_path "x.y[0]") doc_ab
         = _get_object_by_path "x.y[0]" doc_ab).
Proof.
  assert (H1 : _get_object_by_path "a.x.y" doc_ab
               = (Return [Key "a"; Key "x"; Key "y"], doc_axy))
    by (vm_compute; reflexivity).
  assert (H2 : _get_object_by_path "x.y[0]" doc_ab
               = (Raise (RuntimeError "illegal path: x.y[0]"), doc_ab_x))
    by (vm_compute; reflexivity).
  split.
  - exact (_get_object_by_path_twice "a.x.y" doc_ab doc_axy _ H1).
  - exact (_get_object_by_path_twice "x.y[0]" doc_ab doc_ab_x _ H2).
Defined.

Lemma resolution_through_non_mapping_witness :
  _get_object_by_path "a.b" doc_null = (Raise TypeError, doc_null)
  /\ _get_object_by_path "a.b[0].c" doc_ab = (Raise TypeError, doc_ab).
Proof.
  split.
  - exact (resolution_through_non_mapping "a.b" ["a"] [] "b" doc_null doc_null
             [Key "a"] VNone eq_refl eq_refl eq_refl eq_refl (or_intror eq_refl)).
  - exact (resolution_through_non_mapping "a.b[0].c" ["a"; "b[0]"] [] "c"
             doc_ab doc_ab [Key "a"; Key "b"; Idx 0] (VInt 1)
             eq_refl eq_refl eq_refl eq_refl (or_introl eq_refl)).
Defined.

Lemma set_value_plain_key_witness :
  exists doc2 : value,
    set_value "a.c" (VStr "new") doc_ab = (Return tt, doc2)
    /\ deref doc2 ([Key "a"] ++ [Key "c"]) = Some (VStr "new")
    /\ (forall k : string,
          k <> "c" ->
          deref doc2 ([Key "a"] ++ [Key k]) = deref doc_ab ([Key "a"] ++ [Key k])).
Proof.
  exact (set_value_plain_key "a.c" (VStr "new") doc_ab doc_ab [Key "a"] "c"
           {[ "b" := VList [VInt 1; VInt 2; VInt 3] ]} eq_refl eq_refl eq_refl).
Defined.

Lemma set_value_last_write_wins_witness :
  set_value "a.b[3]" (VInt 5) doc_ab4 = set_value "a.b[3]" (VInt 5) doc_ab.
Proof.
  exact (set_value_last_write_wins "a.b[3]" (VInt 4) (VInt 5) doc_ab doc_ab4
           eq_refl).
Defined.

Lemma set_value_then_delete_property_witness :
  (let* _ := set_value "a.c" (VInt 0) in delete_property "a.c" true) doc_ab
  = (Return tt, doc_ab).
Proof.
  exact (proj1 (set_value_then_delete_property "a.c" (VInt 0) true doc_ab doc_ab
                  [Key "a"] "c" {[ "b" := VList [VInt 1; VInt 2; VInt 3] ]}
                  eq_refl eq_refl eq_refl)).
Defined.

Lemma delete_property_twice_witness :
  (let* _ := delete_property "a.b" true in delete_property "a.b" false) doc_ab
  = delete_property "a.b" true doc_ab
  /\ delete_property "a.b" true (VDict {[ "a" := VDict ∅ ]})
     = (Raise (KeyErrorDelete "b" (VDict ∅)), VDict {[ "a" := VDict ∅ ]}).
Proof.
  pose proof (delete_property_twice "a.b" true doc_ab doc_ab [Key "a"] "b"
                {[ "b" := VList [VInt 1; VInt 2; VInt 3] ]} eq_refl eq_refl)
    as [H1 H2].
  split; [exact H1|]. exact (H2 (VDict {[ "a" := VDict ∅ ]}) eq_refl).
Defined.

Lemma append_value_twice_witness :
  (let* _ := append_value "a.b" (VList [VInt 4]) in
   append_value "a.b" (VList [VInt 5])) doc_ab
  = append_value "a.b" (VList [VInt 4; VInt 5]) doc_ab
  /\ (let* _ := append_value "n" (VInt 2) in append_value "n" (VBool true)) doc_list
     = append_value "n" (VInt 3) doc_list.
Proof.
  split.
  - exact (proj1 (append_value_twice "a.b" doc_ab doc_ab [Key "a"] "b"
                    {[ "b" := VList [VInt 1; VInt 2; VInt 3] ]} eq_refl eq_refl)
                 [VInt 1; VInt 2; VInt 3] [VInt 4] [VInt 5] eq_refl).
  - exact (proj2 (proj2 (append_value_twice "n" doc_list doc_list [] "n"
                           {[ "list" := VList [VInt 1]; "n" := VInt 5 ]}
                           eq_refl eq_refl))
                 (VInt 5) (VInt 2) (VBool true) 5%Z 2%Z 1%Z
                 eq_refl eq_refl eq_refl eq_refl).
Defined.

Lemma merge_obj_twice_witness :
  (let* _ := merge_obj "a" {[ "x" := VInt 1; "y" := VInt 1 ]} in
   merge_obj "a" {[ "y" := VInt 2 ]}) doc_ab
  = merge_obj "a" ({[ "y" := VInt 2 ]} ∪ {[ "x" := VInt 1; "y" := VInt 1 ]}) doc_ab.
Proof.
  exact (proj1 (merge_obj_twice "a" {[ "x" := VInt 1; "y" := VInt 1 ]}
                  {[ "y" := VInt 2 ]} doc_ab doc_ab [Key "a"]
                  {[ "b" := VList [VInt 1; VInt 2; VInt 3] ]} eq_refl eq_refl)).
Defined.

Lemma operations_on_non_mapping_parent_witness :
  set_value "a.b" (VInt 1) doc_null = (Raise TypeError, doc_null)
  /\ append_value "a.b" (VInt 1) doc_null = (Raise TypeError, doc_null)
  /\ snd (delete_property "a.b" false doc_null) = doc_null.
Proof.
  exact (operations_on_non_mapping_parent "a.b" (VInt 1) false doc_null doc_null
           [Key "a"] "b" VNone eq_refl eq_refl eq_refl).
Defined.

Lemma set_value_then_resolve_witness :
  exists found : loc,
    _get_object_by_path "a.c" doc_abc = (Return found, doc_abc)
    /\ deref doc_abc found = Some (VInt 7).
Proof.
  assert (Hset : set_value "a.c" (VInt 7) doc_ab = (Return tt, doc_abc))
    by (vm_compute; reflexivity).
  assert (Hsplit : _split_path "a.c" = ["a"] ++ ["c"]) by reflexivity.
  assert (Hpre : (["a"] = [] /\ "c" = "a.c")
                 \/ (["a"] <> []
                     /\ Forall (fun s => without Re.backslash s = true) ["a"]
                     /\ starts_with_dot (hd EmptyString ["a"]) = false)).
  { right. split; [discriminate|]. split; [repeat constructor|reflexivity]. }
  assert (Hm : Re.pattern_match "c" = None) by reflexivity.
  exact (set_value_then_resolve "a.c" ["a"] "c" (VInt 7) doc_ab doc_abc
           Hsplit Hpre Hm Hset).
Defined.

Lemma append_value_type_error_witness :
  append_value "a.b" (VInt 4) doc_ab = (Raise TypeError, doc_ab)
  /\ deref doc_ab ([Key "a"] ++ [Key "b"]) = Some (VList [VInt 1; VInt 2; VInt 3]).
Proof.
  exact (append_value_type_error "a.b" (VInt 4) (VList [VInt 1; VInt 2; VInt 3])
           TypeError doc_ab doc_ab [Key "a"] "b"
           {[ "b" := VList [VInt 1; VInt 2; VInt 3] ]}
           eq_refl eq_refl eq_refl eq_refl).
Defined.

Lemma session_after_session_witness :
  Session.__init__ load1 "inputs.yaml" true true
    (snd (Session.with_patcher load1 json1 yaml0 "inputs.yaml" true true
            (set_value "a.b[3]" (VInt 4)) disk0))
  = inl (Session.Patcher "inputs.yaml" doc_ab4 true true).
Proof.
  exact (proj1 (session_after_session load1 json1 yaml0 "inputs.yaml" true true
                  (set_value "a.b[3]" (VInt 4)) (ret tt) disk0
                  (Session.Patcher "inputs.yaml" doc_ab true true) doc_ab4
                  eq_refl eq_refl eq_refl)).
Defined.

Lemma process_variables_renders_strings_witness :
  Variables.process_variables unit string Template0 render0 ∅
    {[ "name" := VStr "x"; "count" := VInt 3 ]}
  = inr {[ "name" := VStr "<x>"; "count" := VInt 3 ]}.
Proof.
  assert (H : forall k source : string,
            ({[ "name" := VStr "x"; "count" := VInt 3 ]} : gmap string value) !! k
            = Some (VStr source) ->
            exists t : string,
              Template0 source = inr t
              /\ render0 t ∅ = inr ((fun s => "<" +:+ s +:+ ">") source)).
  { intros k source _. by exists source. }
  exact (proj1 (process_variables_renders_strings unit string Template0 render0
                  ∅ {[ "name" := VStr "x"; "count" := VInt 3 ]} ∅
                  (fun s => "<" +:+ s +:+ ">") eq_refl H)).
Defined.

Lemma process_variables_without_strings_witness :
  Variables.process_variables unit string Template0 render0
    {[ "variables" := VNone ]} {[ "count" := VInt 3 ]}
  = inr {[ "count" := VInt 3 ]}.
Proof.
  assert (H : forall (k : string) (v : value),
            ({[ "count" := VInt 3 ]} : gmap string value) !! k = Some v ->
            is_str v = false).
  { intros k v Hk. apply lookup_singleton_Some in Hk as [_ <-]. done. }
  exact (process_variables_without_strings unit string Template0 render0
           {[ "variables" := VNone ]} {[ "count" := VInt 3 ]} H).
Defined.

Lemma process_variables_returns_only_rendered_witness :
  exists (kwargs : gmap string value) (t text : string),
    Variables.template_variables {[ "variables" := VDict {[ "v" := VInt 1 ]} ]}
    = VDict kwargs
    /\ Template0 "x" = inr t
    /\ render0 t kwargs = inr text.
Proof.
  exact (process_variables_returns_only_rendered unit string Template0 render0
           {[ "variables" := VDict {[ "v" := VInt 1 ]} ]}
           {[ "name" := VStr "x" ]} {[ "name" := VStr "<x>" ]}
           eq_refl "name" "x" eq_refl).
Defined.

Lemma resolution_only_adds_witness :
  kept (VList [VInt 1; VInt 2; VInt 3]) (deref doc_axy [Key "a"; Key "b"])
  /\ deref doc_axy [Key "a"; Key "b"; Idx 0] = Some (VInt 1).
Proof.
  assert (H : _get_object_by_path "a.x.y" doc_ab
              = (Return [Key "a"; Key "x"; Key "y"], doc_axy))
    by (vm_compute; reflexivity).
  assert (Hb : deref doc_ab [Key "a"; Key "b"]
               = Some (VList [VInt 1; VInt 2; VInt 3])) by reflexivity.
  assert (H0 : deref doc_ab [Key "a"; Key "b"; Idx 0] = Some (VInt 1))
    by reflexivity.
  split.
  - exact (proj1 (resolution_only_adds "a.x.y" doc_ab doc_axy _ _ _ H Hb)).
  - exact (proj1 (proj2 (resolution_only_adds "a.x.y" doc_ab doc_axy _ _ _ H H0))
                 eq_refl eq_refl).
Defined.

(** * The escapes of the path language *)

(** ** A key name written with escapes and split again *)







(** ** How many parts the split of escaped key names has

    Every dot that joins two names separates, whatever the names are; an
    escaped dot separates as well when it stands where the look-behind
    cannot hold, and the split then has more parts than there were
    names. *)





(** ** What the escapes do, and where they fail *)



